(** * simpleperf register decoding (simpleperf/perf_regs.cpp)

    A shallow embedding of the architecture registry, the register name
    resolver and the register set decoder of [perf_regs.cpp], with the
    properties of its specification stated and proved over it.

    Conventions of the embedding:
    - [uint64_t] values are integers [z : Z] with [0 <= z < 2^64]; the
      wrap-around of each operation is written out ([shl64], [sub64],
      [not64]);
    - the 64-slot array [RegSet::data] is a [list Z], read with [!!!] and
      updated with [<[ i := v ]>];
    - a [bool] result with an output pointer ([uint64_t* value]) is a pair
      of the returned flag and the contents of [*value] after the call,
      the contents before the call being an argument;
    - a failed [CHECK] aborts the process: [Fatal]; reading outside a
      caller-supplied buffer is [Undefined];
    - the process-wide [ScopedCurrentArch::current_arch] is passed
      explicitly to the code that reads it. *)

From Stdlib Require Import ZArith String Ascii List Bool Lia.
From Stdlib Require Import DecimalString.
From Stdlib Require DecimalPos.
From stdpp Require Import base list.
Import ListNotations.

Local Open Scope Z_scope.

(** ** Results of fallible code *)

Inductive outcome (A : Type) : Type :=
| Ret (a : A)
| Fatal (msg : string)
| Undefined.

Arguments Ret {A} a.
Arguments Fatal {A} msg.
Arguments Undefined {A}.

Definition obind {A B : Type} (m : outcome A) (k : A -> outcome B) : outcome B :=
  match m with
  | Ret a => k a
  | Fatal msg => Fatal msg
  | Undefined => Undefined
  end.

Notation "'let*' x ':=' m 'in' k" := (obind m (fun x => k))
  (at level 10, x name, m at level 100, k at level 200).

(** ** Machine integers *)

Definition two64 : Z := 2 ^ 64.

Definition is_uint64 (z : Z) : Prop := 0 <= z < two64.

(** [x << n] on [uint64_t]. *)
Definition shl64 (x n : Z) : Z := Z.shiftl x n mod two64.

(** [x - y] on [uint64_t]. *)
Definition sub64 (x y : Z) : Z := (x - y) mod two64.

(** [~x] on [uint64_t]. *)
Definition not64 (x : Z) : Z := Z.land (Z.lnot x) (Z.ones 64).

(** [(m >> i) & 1] as the condition of an [if]. *)
Definition bit_set (m i : Z) : bool := negb (Z.land (Z.shiftr m i) 1 =? 0).

(** [static_cast<int>(z)]: reduction modulo [2^32] into the signed range. *)
Definition to_int (z : Z) : Z :=
  let r := z mod 2 ^ 32 in
  if r <? 2 ^ 31 then r else r - 2 ^ 32.

(** Conversion of an [int] to [size_t] (64 bits), as done on the key of
    [unordered_map<size_t, ...>::find]. *)
Definition to_size_t (z : Z) : Z := z mod two64.

(** ** Architecture registry *)

Inductive ArchType : Type :=
| ARCH_X86_32
| ARCH_X86_64
| ARCH_ARM
| ARCH_ARM64
| ARCH_RISCV64
| ARCH_UNSUPPORTED.

Definition ArchType_eqb (a b : ArchType) : bool :=
  match a, b with
  | ARCH_X86_32, ARCH_X86_32
  | ARCH_X86_64, ARCH_X86_64
  | ARCH_ARM, ARCH_ARM
  | ARCH_ARM64, ARCH_ARM64
  | ARCH_RISCV64, ARCH_RISCV64
  | ARCH_UNSUPPORTED, ARCH_UNSUPPORTED => true
  | _, _ => false
  end.

(** Modelled from the spec: the ABI tags and the register numbering are
    enumerations of the kernel's sampling interface ([perf_event.h] and the
    per-architecture [perf_regs.h]); their declarations are not part of
    [perf_regs.cpp].  The spec names the registers and their ranges
    (R8-R15, R0-R10, X0-X29, the named extras, the 32 RISC-V registers);
    the numbers are those of the kernel interface. *)
Module Uapi.

Definition PERF_SAMPLE_REGS_ABI_NONE : Z := 0.
Definition PERF_SAMPLE_REGS_ABI_32 : Z := 1.
Definition PERF_SAMPLE_REGS_ABI_64 : Z := 2.

Definition PERF_REG_X86_AX : Z := 0.
Definition PERF_REG_X86_BX : Z := 1.
Definition PERF_REG_X86_CX : Z := 2.
Definition PERF_REG_X86_DX : Z := 3.
Definition PERF_REG_X86_SI : Z := 4.
Definition PERF_REG_X86_DI : Z := 5.
Definition PERF_REG_X86_BP : Z := 6.
Definition PERF_REG_X86_SP : Z := 7.
Definition PERF_REG_X86_IP : Z := 8.
Definition PERF_REG_X86_FLAGS : Z := 9.
Definition PERF_REG_X86_CS : Z := 10.
Definition PERF_REG_X86_SS : Z := 11.
Definition PERF_REG_X86_DS : Z := 12.
Definition PERF_REG_X86_ES : Z := 13.
Definition PERF_REG_X86_FS : Z := 14.
Definition PERF_REG_X86_GS : Z := 15.
Definition PERF_REG_X86_R8 : Z := 16.
Definition PERF_REG_X86_R15 : Z := 23.
Definition PERF_REG_X86_32_MAX : Z := PERF_REG_X86_GS + 1.
Definition PERF_REG_X86_64_MAX : Z := PERF_REG_X86_R15 + 1.

Definition PERF_REG_ARM_R0 : Z := 0.
Definition PERF_REG_ARM_R10 : Z := 10.
Definition PERF_REG_ARM_FP : Z := 11.
Definition PERF_REG_ARM_IP : Z := 12.
Definition PERF_REG_ARM_SP : Z := 13.
Definition PERF_REG_ARM_LR : Z := 14.
Definition PERF_REG_ARM_PC : Z := 15.
Definition PERF_REG_ARM_MAX : Z := 16.

Definition PERF_REG_ARM64_X0 : Z := 0.
Definition PERF_REG_ARM64_X29 : Z := 29.
Definition PERF_REG_ARM64_LR : Z := 30.
Definition PERF_REG_ARM64_SP : Z := 31.
Definition PERF_REG_ARM64_PC : Z := 32.
Definition PERF_REG_ARM64_MAX : Z := 33.

Definition PERF_REG_RISCV_PC : Z := 0.
Definition PERF_REG_RISCV_RA : Z := 1.
Definition PERF_REG_RISCV_SP : Z := 2.
Definition PERF_REG_RISCV_GP : Z := 3.
Definition PERF_REG_RISCV_TP : Z := 4.
Definition PERF_REG_RISCV_T0 : Z := 5.
Definition PERF_REG_RISCV_T1 : Z := 6.
Definition PERF_REG_RISCV_T2 : Z := 7.
Definition PERF_REG_RISCV_S0 : Z := 8.
Definition PERF_REG_RISCV_S1 : Z := 9.
Definition PERF_REG_RISCV_A0 : Z := 10.
Definition PERF_REG_RISCV_A1 : Z := 11.
Definition PERF_REG_RISCV_A2 : Z := 12.
Definition PERF_REG_RISCV_A3 : Z := 13.
Definition PERF_REG_RISCV_A4 : Z := 14.
Definition PERF_REG_RISCV_A5 : Z := 15.
Definition PERF_REG_RISCV_A6 : Z := 16.
Definition PERF_REG_RISCV_A7 : Z := 17.
Definition PERF_REG_RISCV_S2 : Z := 18.
Definition PERF_REG_RISCV_S3 : Z := 19.
Definition PERF_REG_RISCV_S4 : Z := 20.
Definition PERF_REG_RISCV_S5 : Z := 21.
Definition PERF_REG_RISCV_S6 : Z := 22.
Definition PERF_REG_RISCV_S7 : Z := 23.
Definition PERF_REG_RISCV_S8 : Z := 24.
Definition PERF_REG_RISCV_S9 : Z := 25.
Definition PERF_REG_RISCV_S10 : Z := 26.
Definition PERF_REG_RISCV_S11 : Z := 27.
Definition PERF_REG_RISCV_T3 : Z := 28.
Definition PERF_REG_RISCV_T4 : Z := 29.
Definition PERF_REG_RISCV_T5 : Z := 30.
Definition PERF_REG_RISCV_T6 : Z := 31.
Definition PERF_REG_RISCV_MAX : Z := 32.

End Uapi.
Import Uapi.

(** [GetArchForAbi(machine_arch, abi)]. *)
Definition GetArchForAbi (machine_arch : ArchType) (abi : Z) : ArchType :=
  if abi =? PERF_SAMPLE_REGS_ABI_32 then
    if ArchType_eqb machine_arch ARCH_X86_64 then ARCH_X86_32
    else if ArchType_eqb machine_arch ARCH_ARM64 then ARCH_ARM
    else machine_arch
  else if abi =? PERF_SAMPLE_REGS_ABI_64 then
    if ArchType_eqb machine_arch ARCH_X86_32 then ARCH_X86_64
    else if ArchType_eqb machine_arch ARCH_ARM then ARCH_ARM64
    else machine_arch
  else machine_arch.

(** [(1ULL << max) - 1]. *)
Definition low_bits (max : Z) : Z := sub64 (shl64 1 max) 1.

(** [~(1ULL << r)]. *)
Definition all_but (r : Z) : Z := not64 (shl64 1 r).

(** [GetSupportedRegMask(arch)]. *)
Definition GetSupportedRegMask (arch : ArchType) : Z :=
  match arch with
  | ARCH_X86_32 =>
      Z.land (Z.land (Z.land (Z.land (low_bits PERF_REG_X86_32_MAX)
        (all_but PERF_REG_X86_DS)) (all_but PERF_REG_X86_ES))
        (all_but PERF_REG_X86_FS)) (all_but PERF_REG_X86_GS)
  | ARCH_X86_64 =>
      Z.land (Z.land (Z.land (Z.land (low_bits PERF_REG_X86_64_MAX)
        (all_but PERF_REG_X86_DS)) (all_but PERF_REG_X86_ES))
        (all_but PERF_REG_X86_FS)) (all_but PERF_REG_X86_GS)
  | ARCH_ARM => low_bits PERF_REG_ARM_MAX
  | ARCH_ARM64 => low_bits PERF_REG_ARM64_MAX
  | ARCH_RISCV64 => low_bits PERF_REG_RISCV_MAX
  | ARCH_UNSUPPORTED => 0
  end.

(** *** Parsing an architecture name *)

Local Open Scope string_scope.

(** [android::base::StartsWith(s, prefix)]. *)
Definition StartsWith (s pre : string) : bool := String.prefix pre s.

(** [s[n]] on a [std::string], for [n <= s.size()]: the character at
    position [n], and the terminating NUL at position [s.size()]. *)
Definition char_at (s : string) (n : nat) : ascii :=
  match String.get n s with
  | Some c => c
  | None => Ascii.zero
  end.

(** [&s[n]] read as a C string, for [n <= s.size()]. *)
Fixpoint c_str_from (n : nat) (s : string) : string :=
  match n, s with
  | O, _ => s
  | S n', String _ s' => c_str_from n' s'
  | S _, EmptyString => EmptyString
  end.

Definition isspace (c : ascii) : bool :=
  let n := N_of_ascii c in ((9 <=? n) && (n <=? 13) || (n =? 32))%N.

Definition isdigit (c : ascii) : bool :=
  let n := N_of_ascii c in ((48 <=? n) && (n <=? 57))%N.

Fixpoint skip_space (s : string) : string :=
  match s with
  | String c s' => if isspace c then skip_space s' else s
  | EmptyString => s
  end.

Fixpoint digits_value (acc : Z) (s : string) : Z :=
  match s with
  | String c s' =>
      if isdigit c
      then digits_value (acc * 10 + (Z.of_N (N_of_ascii c) - 48)) s'
      else acc
  | EmptyString => acc
  end.

(** The integer denoted by the longest prefix of [s] that has the form
    of optional white space, an optional sign and decimal digits; [0]
    when there are no digits. *)
Definition decimal_prefix (s : string) : Z :=
  match skip_space s with
  | String "-" s' => - digits_value 0 s'
  | String "+" s' => digits_value 0 s'
  | s' => digits_value 0 s'
  end.

Definition INT_MIN : Z := - 2 ^ 31.
Definition INT_MAX : Z := 2 ^ 31 - 1.

Definition LONG_MIN : Z := - 2 ^ 63.
Definition LONG_MAX : Z := 2 ^ 63 - 1.

(** [strtol(s, NULL, 10)] with a 64-bit [long]: the value of the decimal
    prefix, or the nearest of [LONG_MIN] and [LONG_MAX] when that value
    is not a [long]. *)
Definition strtol10 (s : string) : Z :=
  Z.max LONG_MIN (Z.min LONG_MAX (decimal_prefix s)).

(** Modelled from the spec: [atoi] is the C library's, not part of
    [perf_regs.cpp]; the spec calls it parsing the numeric version
    suffix.  It is modelled as the C libraries this code is built with
    define it, [(int)strtol(s, NULL, 10)]: the value of [decimal_prefix]
    when that value is an [int], and otherwise the conversion to [int] of
    the value kept within [long].  It always returns. *)
Definition atoi (s : string) : outcome Z := Ret (to_int (strtol10 s)).

(** [GetArchType(arch)], with the lines written to the error log. *)
Definition GetArchType (arch : string) : outcome (ArchType * list string) :=
  if (arch =? "x86") || (arch =? "i686") then Ret (ARCH_X86_32, [])
  else if arch =? "x86_64" then Ret (ARCH_X86_64, [])
  else if arch =? "riscv64" then Ret (ARCH_RISCV64, [])
  else if arch =? "aarch64" then Ret (ARCH_ARM64, [])
  else if StartsWith arch "arm" then
    if Ascii.eqb (char_at arch 3) "v" then
      let* version := atoi (c_str_from 4 arch) in
      if (8 <=? version)%Z then Ret (ARCH_ARM64, []) else Ret (ARCH_ARM, [])
    else Ret (ARCH_ARM, [])
  else Ret (ARCH_UNSUPPORTED, ["unsupported arch: " ++ arch]).

(** [GetArchString(arch)]. *)
Definition GetArchString (arch : ArchType) : string :=
  match arch with
  | ARCH_X86_32 => "x86"
  | ARCH_X86_64 => "x86_64"
  | ARCH_ARM64 => "arm64"
  | ARCH_ARM => "arm"
  | ARCH_RISCV64 => "riscv64"
  | ARCH_UNSUPPORTED => "unknown"
  end.

(** ** Register name resolver *)

Definition reg_map : Type := list (Z * string).

(** [m.find(key)]: [Some] name when the key is present, [None] for
    [m.end()]. *)
Fixpoint find (m : reg_map) (key : Z) : option string :=
  match m with
  | [] => None
  | (k, name) :: m' => if (k =? key)%Z then Some name else find m' key
  end.

Definition x86_reg_map : reg_map :=
  [ (PERF_REG_X86_AX, "ax"); (PERF_REG_X86_BX, "bx"); (PERF_REG_X86_CX, "cx");
    (PERF_REG_X86_DX, "dx"); (PERF_REG_X86_SI, "si"); (PERF_REG_X86_DI, "di");
    (PERF_REG_X86_BP, "bp"); (PERF_REG_X86_SP, "sp"); (PERF_REG_X86_IP, "ip");
    (PERF_REG_X86_FLAGS, "flags"); (PERF_REG_X86_CS, "cs"); (PERF_REG_X86_SS, "ss");
    (PERF_REG_X86_DS, "ds"); (PERF_REG_X86_ES, "es"); (PERF_REG_X86_FS, "fs");
    (PERF_REG_X86_GS, "gs") ].

Definition arm_reg_map : reg_map :=
  [ (PERF_REG_ARM_FP, "fp"); (PERF_REG_ARM_IP, "ip"); (PERF_REG_ARM_SP, "sp");
    (PERF_REG_ARM_LR, "lr"); (PERF_REG_ARM_PC, "pc") ].

Definition arm64_reg_map : reg_map :=
  [ (PERF_REG_ARM64_LR, "lr"); (PERF_REG_ARM64_SP, "sp"); (PERF_REG_ARM64_PC, "pc") ].

Definition riscv64_reg_map : reg_map :=
  [ (PERF_REG_RISCV_PC, "pc"); (PERF_REG_RISCV_RA, "ra"); (PERF_REG_RISCV_SP, "sp");
    (PERF_REG_RISCV_GP, "gp"); (PERF_REG_RISCV_TP, "tp"); (PERF_REG_RISCV_T0, "t0");
    (PERF_REG_RISCV_T1, "t1"); (PERF_REG_RISCV_T2, "t2"); (PERF_REG_RISCV_S0, "s0");
    (PERF_REG_RISCV_S1, "s1"); (PERF_REG_RISCV_A0, "a0"); (PERF_REG_RISCV_A1, "a1");
    (PERF_REG_RISCV_A2, "a2"); (PERF_REG_RISCV_A3, "a3"); (PERF_REG_RISCV_A4, "a4");
    (PERF_REG_RISCV_A5, "a5"); (PERF_REG_RISCV_A6, "a6"); (PERF_REG_RISCV_A7, "a7");
    (PERF_REG_RISCV_S2, "s2"); (PERF_REG_RISCV_S3, "s3"); (PERF_REG_RISCV_S4, "s4");
    (PERF_REG_RISCV_S5, "s5"); (PERF_REG_RISCV_S6, "s6"); (PERF_REG_RISCV_S7, "s7");
    (PERF_REG_RISCV_S8, "s8"); (PERF_REG_RISCV_S9, "s9"); (PERF_REG_RISCV_S10, "s10");
    (PERF_REG_RISCV_S11, "s11"); (PERF_REG_RISCV_T3, "t3"); (PERF_REG_RISCV_T4, "t4");
    (PERF_REG_RISCV_T5, "t5"); (PERF_REG_RISCV_T6, "t6") ].

(** The text of an [int] printed with [%d]. *)
Definition dec (n : Z) : string := NilZero.string_of_int (Z.to_int n).

(** [android::base::StringPrintf("r%d", n)]. *)
Definition StringPrintf_r (n : Z) : string := "r" ++ dec n.

(** [auto it = m.find(reg); CHECK(it != m.end()) << "unknown reg " << reg;
    return it->second;] *)
Definition checked_find (m : reg_map) (reg : Z) : outcome string :=
  match find m (to_size_t reg) with
  | Some name => Ret name
  | None => Fatal ("unknown reg " ++ dec reg)
  end.

(** The body of [case ARCH_X86_32]. *)
Definition GetRegName_x86_32 (reg : Z) : outcome string :=
  checked_find x86_reg_map reg.

(** The body of [case ARCH_ARM64]. *)
Definition GetRegName_arm64 (reg : Z) : outcome string :=
  if (PERF_REG_ARM64_X0 <=? reg)%Z && (reg <=? PERF_REG_ARM64_X29)%Z
  then Ret (StringPrintf_r (reg - PERF_REG_ARM64_X0))
  else checked_find arm64_reg_map reg.

(** [GetRegName(regno, arch)].  The cases of the [switch] that end in
    [FALLTHROUGH_INTENDED] continue with the body of the next case. *)
Definition GetRegName (regno : Z) (arch : ArchType) : outcome string :=
  let reg := to_int regno in
  match arch with
  | ARCH_X86_64 =>
      if (PERF_REG_X86_R8 <=? reg)%Z && (reg <=? PERF_REG_X86_R15)%Z
      then Ret (StringPrintf_r (reg - PERF_REG_X86_R8 + 8))
      else GetRegName_x86_32 reg
  | ARCH_X86_32 => GetRegName_x86_32 reg
  | ARCH_ARM =>
      if (PERF_REG_ARM_R0 <=? reg)%Z && (reg <=? PERF_REG_ARM_R10)%Z
      then Ret (StringPrintf_r (reg - PERF_REG_ARM_R0))
      else match find arm_reg_map (to_size_t reg) with
           | Some name => Ret name
           | None => GetRegName_arm64 reg
           end
  | ARCH_ARM64 => GetRegName_arm64 reg
  | ARCH_RISCV64 => checked_find riscv64_reg_map reg
  | ARCH_UNSUPPORTED => Ret "unknown"
  end.

Local Close Scope string_scope.

(** ** Register set decoder *)

Record RegSet : Type := mkRegSet {
  arch : ArchType;
  valid_mask : Z;
  data : list Z
}.

(** The loop of the constructor,
    [for (int i = 0, j = 0; i < 64; ++i)
       if ((valid_mask >> i) & 1) data[i] = valid_regs[j++];]
    entered with [n] iterations left and the loop variables [i], [j]. *)
Fixpoint expand_from (n : nat) (i : Z) (j : nat) (mask : Z)
    (valid_regs dense : list Z) : outcome (list Z) :=
  match n with
  | O => Ret dense
  | S n' =>
      if bit_set mask i then
        match valid_regs !! j with
        | Some v =>
            expand_from n' (i + 1) (S j) mask valid_regs (<[Z.to_nat i := v]> dense)
        | None => Undefined
        end
      else expand_from n' (i + 1) j mask valid_regs dense
  end.

(** [memset(data, 0, sizeof(data))] followed by the loop. *)
Definition expand (mask : Z) (valid_regs : list Z) : outcome (list Z) :=
  expand_from 64 0 0 mask valid_regs (replicate 64 0).

(** The last statement of the constructor: on an ARM64 host with a
    32-bit sample, [data[PERF_REG_ARM_PC] = data[PERF_REG_ARM64_PC]]. *)
Definition map_arm64_pc (current_arch : ArchType) (abi : Z) (dense : list Z) : list Z :=
  if ArchType_eqb current_arch ARCH_ARM64 && (abi =? PERF_SAMPLE_REGS_ABI_32)
  then <[Z.to_nat PERF_REG_ARM_PC := dense !!! Z.to_nat PERF_REG_ARM64_PC]> dense
  else dense.

(** [RegSet::RegSet(abi, valid_mask, valid_regs)], with
    [ScopedCurrentArch::GetCurrentArch()] as [current_arch]. *)
Definition RegSet_new (current_arch : ArchType) (abi mask : Z)
    (valid_regs : list Z) : outcome RegSet :=
  let a := GetArchForAbi current_arch abi in
  let* dense := expand mask valid_regs in
  Ret (mkRegSet a mask (map_arm64_pc current_arch abi dense)).

(** [RegSet::GetRegValue(regno, value)]; [value] is the contents of the
    output location before the call. *)
Definition GetRegValue (rs : RegSet) (regno : Z) (value : Z) : outcome (bool * Z) :=
  if regno <? 64 then
    if bit_set (valid_mask rs) regno
    then Ret (true, data rs !!! Z.to_nat regno)
    else Ret (false, value)
  else Fatal "Check failed: regno < 64U".

(** [RegSet::GetSpRegValue(value)]. *)
Definition GetSpRegValue (rs : RegSet) (value : Z) : outcome (bool * Z) :=
  match arch rs with
  | ARCH_X86_32 => GetRegValue rs PERF_REG_X86_SP value
  | ARCH_X86_64 => GetRegValue rs PERF_REG_X86_SP value
  | ARCH_ARM => GetRegValue rs PERF_REG_ARM_SP value
  | ARCH_ARM64 => GetRegValue rs PERF_REG_ARM64_SP value
  | ARCH_RISCV64 => GetRegValue rs PERF_REG_RISCV_SP value
  | ARCH_UNSUPPORTED => Ret (false, value)
  end.

(** [RegSet::GetIpRegValue(value)]. *)
Definition GetIpRegValue (rs : RegSet) (value : Z) : outcome (bool * Z) :=
  match arch rs with
  | ARCH_X86_64 | ARCH_X86_32 => GetRegValue rs PERF_REG_X86_IP value
  | ARCH_ARM => GetRegValue rs PERF_REG_ARM_PC value
  | ARCH_ARM64 => GetRegValue rs PERF_REG_ARM64_PC value
  | ARCH_RISCV64 => GetRegValue rs PERF_REG_RISCV_PC value
  | ARCH_UNSUPPORTED => Ret (false, value)
  end.

(** Number of set bits of [m] at positions below [i]: the position in
    the packed array of the entry that belongs to bit [i]. *)
Fixpoint rank (m : Z) (i : nat) : nat :=
  match i with
  | O => O
  | S i' => (rank m i' + if Z.testbit m (Z.of_nat i') then 1 else 0)%nat
  end.

Definition popcount64 (m : Z) : nat := rank m 64.

(** * Definitions used to state the properties *)

(** The segment registers of x86. *)
Definition is_x86_segment (i : Z) : bool :=
  (i =? PERF_REG_X86_DS) || (i =? PERF_REG_X86_ES) ||
  (i =? PERF_REG_X86_FS) || (i =? PERF_REG_X86_GS).

(** Bit [i] of the supported mask, as the spec describes it: the range
    below the architecture's maximum, without the segment registers on
    x86. *)
Definition supported_bit (a : ArchType) (i : Z) : bool :=
  match a with
  | ARCH_X86_32 => (0 <=? i) && (i <? PERF_REG_X86_32_MAX) && negb (is_x86_segment i)
  | ARCH_X86_64 => (0 <=? i) && (i <? PERF_REG_X86_64_MAX) && negb (is_x86_segment i)
  | ARCH_ARM => (0 <=? i) && (i <? PERF_REG_ARM_MAX)
  | ARCH_ARM64 => (0 <=? i) && (i <? PERF_REG_ARM64_MAX)
  | ARCH_RISCV64 => (0 <=? i) && (i <? PERF_REG_RISCV_MAX)
  | ARCH_UNSUPPORTED => false
  end.

(** The mask expression shared by the two x86 cases of
    [GetSupportedRegMask], with the architecture's maximum as [max]. *)
Definition x86_mask (max : Z) : Z :=
  Z.land (Z.land (Z.land (Z.land (low_bits max)
    (all_but PERF_REG_X86_DS)) (all_but PERF_REG_X86_ES))
    (all_but PERF_REG_X86_FS)) (all_but PERF_REG_X86_GS).

(** The register that holds the stack pointer, per architecture. *)
Definition sp_regno (a : ArchType) : option Z :=
  match a with
  | ARCH_X86_32 | ARCH_X86_64 => Some PERF_REG_X86_SP
  | ARCH_ARM => Some PERF_REG_ARM_SP
  | ARCH_ARM64 => Some PERF_REG_ARM64_SP
  | ARCH_RISCV64 => Some PERF_REG_RISCV_SP
  | ARCH_UNSUPPORTED => None
  end.

(** The register that holds the program counter, per architecture. *)
Definition ip_regno (a : ArchType) : option Z :=
  match a with
  | ARCH_X86_32 | ARCH_X86_64 => Some PERF_REG_X86_IP
  | ARCH_ARM => Some PERF_REG_ARM_PC
  | ARCH_ARM64 => Some PERF_REG_ARM64_PC
  | ARCH_RISCV64 => Some PERF_REG_RISCV_PC
  | ARCH_UNSUPPORTED => None
  end.

(** The mask with bits 2, 5 and 9 set. *)
Definition mask_2_5_9 : Z := Z.lor (Z.shiftl 1 2) (Z.lor (Z.shiftl 1 5) (Z.shiftl 1 9)).

Local Open Scope string_scope.

(** The names the spec documents, in the order of the register
    indices: the x86 table, the extended x86_64 registers, ARM, ARM64
    and RISC-V. *)
Definition x86_names : list string :=
  ["ax"; "bx"; "cx"; "dx"; "si"; "di"; "bp"; "sp"; "ip"; "flags"; "cs"; "ss";
   "ds"; "es"; "fs"; "gs"].

Definition x86_64_extended_names : list string :=
  ["r8"; "r9"; "r10"; "r11"; "r12"; "r13"; "r14"; "r15"].

Definition arm_names : list string :=
  ["r0"; "r1"; "r2"; "r3"; "r4"; "r5"; "r6"; "r7"; "r8"; "r9"; "r10";
   "fp"; "ip"; "sp"; "lr"; "pc"].

Definition arm64_names : list string :=
  ["r0"; "r1"; "r2"; "r3"; "r4"; "r5"; "r6"; "r7"; "r8"; "r9";
   "r10"; "r11"; "r12"; "r13"; "r14"; "r15"; "r16"; "r17"; "r18"; "r19";
   "r20"; "r21"; "r22"; "r23"; "r24"; "r25"; "r26"; "r27"; "r28"; "r29";
   "lr"; "sp"; "pc"].

Definition riscv64_names : list string :=
  ["pc"; "ra"; "sp"; "gp"; "tp"; "t0"; "t1"; "t2"; "s0"; "s1";
   "a0"; "a1"; "a2"; "a3"; "a4"; "a5"; "a6"; "a7";
   "s2"; "s3"; "s4"; "s5"; "s6"; "s7"; "s8"; "s9"; "s10"; "s11";
   "t3"; "t4"; "t5"; "t6"].

Definition documented_name (a : ArchType) (i : Z) : option string :=
  match a with
  | ARCH_X86_32 => x86_names !! Z.to_nat i
  | ARCH_X86_64 =>
      if (PERF_REG_X86_R8 <=? i)%Z && (i <=? PERF_REG_X86_R15)%Z
      then x86_64_extended_names !! Z.to_nat (i - PERF_REG_X86_R8)
      else x86_names !! Z.to_nat i
  | ARCH_ARM => arm_names !! Z.to_nat i
  | ARCH_ARM64 => arm64_names !! Z.to_nat i
  | ARCH_RISCV64 => riscv64_names !! Z.to_nat i
  | ARCH_UNSUPPORTED => None
  end.

Definition returns_name (r : outcome string) (o : option string) : bool :=
  match r, o with
  | Ret s, Some name => String.eqb s name
  | _, _ => false
  end.

(** The instruction-set family of an architecture. *)
Inductive ArchFamily : Type :=
| FAMILY_X86
| FAMILY_ARM
| FAMILY_RISCV
| FAMILY_NONE.

Definition arch_family (a : ArchType) : ArchFamily :=
  match a with
  | ARCH_X86_32 | ARCH_X86_64 => FAMILY_X86
  | ARCH_ARM | ARCH_ARM64 => FAMILY_ARM
  | ARCH_RISCV64 => FAMILY_RISCV
  | ARCH_UNSUPPORTED => FAMILY_NONE
  end.

(** The indices, as [int], at which [GetRegName] has a name to return. *)
Definition named_index (a : ArchType) (reg : Z) : bool :=
  match a with
  | ARCH_X86_32 => (PERF_REG_X86_AX <=? reg)%Z && (reg <=? PERF_REG_X86_GS)%Z
  | ARCH_X86_64 => (PERF_REG_X86_AX <=? reg)%Z && (reg <=? PERF_REG_X86_R15)%Z
  | ARCH_ARM | ARCH_ARM64 => (PERF_REG_ARM64_X0 <=? reg)%Z && (reg <=? PERF_REG_ARM64_PC)%Z
  | ARCH_RISCV64 => (PERF_REG_RISCV_PC <=? reg)%Z && (reg <=? PERF_REG_RISCV_T6)%Z
  | ARCH_UNSUPPORTED => true
  end.

Definition starts_with_digit (s : string) : bool :=
  match s with
  | String c _ => isdigit c
  | EmptyString => false
  end.

(** The number written by the digits of [d], most significant first,
    after the digits already read as [acc]. *)
Fixpoint uint_value (acc : Z) (d : Decimal.uint) : Z :=
  match d with
  | Decimal.Nil => acc
  | Decimal.D0 d' => uint_value (acc * 10 + 0) d'
  | Decimal.D1 d' => uint_value (acc * 10 + 1) d'
  | Decimal.D2 d' => uint_value (acc * 10 + 2) d'
  | Decimal.D3 d' => uint_value (acc * 10 + 3) d'
  | Decimal.D4 d' => uint_value (acc * 10 + 4) d'
  | Decimal.D5 d' => uint_value (acc * 10 + 5) d'
  | Decimal.D6 d' => uint_value (acc * 10 + 6) d'
  | Decimal.D7 d' => uint_value (acc * 10 + 7) d'
  | Decimal.D8 d' => uint_value (acc * 10 + 8) d'
  | Decimal.D9 d' => uint_value (acc * 10 + 9) d'
  end.

(** The values a caller collects by asking [GetRegValue] for the
    indices 0..63 in increasing order and keeping the successful
    answers. *)
Definition sampled_values (rs : RegSet) : list Z :=
  omap (fun i : nat =>
          match GetRegValue rs (Z.of_nat i) 0 with
          | Ret (true, v) => Some v
          | _ => None
          end) (seq 0 64).

Local Close Scope string_scope.

(** * Properties *)

(** ** Bits of machine words *)

Section Bits.

Lemma bit_set_testbit (m i : Z) : 0 <= i -> bit_set m i = Z.testbit m i.
  Proof.
    intros Hi. unfold bit_set.
    change 1 with (Z.ones 1). rewrite Z.land_ones by lia.
    rewrite Z.testbit_odd, Z.pow_1_r, Zmod_odd.
    destruct (Z.odd (Z.shiftr m i)); reflexivity.
  Qed.

Lemma shl64_one (k : Z) : 0 <= k < 64 -> shl64 1 k = 2 ^ k.
  Proof.
    intros Hk. unfold shl64, two64.
    rewrite Z.shiftl_1_l. apply Z.mod_small.
    split; [apply Z.pow_nonneg; lia | apply Z.pow_lt_mono_r; lia].
  Qed.

Lemma low_bits_ones (k : Z) : 0 <= k < 64 -> low_bits k = Z.ones k.
  Proof.
    intros Hk. unfold low_bits, sub64. rewrite shl64_one by lia.
    rewrite Z.ones_equiv, <- Z.sub_1_r.
    apply Z.mod_small. unfold two64.
    assert (0 < 2 ^ k) by (apply Z.pow_pos_nonneg; lia).
    assert (2 ^ k < 2 ^ 64) by (apply Z.pow_lt_mono_r; lia).
    lia.
  Qed.

Lemma testbit_low_bits (k i : Z) :
    0 <= k < 64 -> Z.testbit (low_bits k) i = (0 <=? i) && (i <? k).
  Proof.
    intros Hk. rewrite low_bits_ones by lia. apply Z.testbit_ones. lia.
  Qed.

Lemma testbit_all_but (r i : Z) :
    0 <= r < 64 -> 0 <= i < 64 -> Z.testbit (all_but r) i = negb (i =? r).
  Proof.
    intros Hr Hi. unfold all_but, not64. rewrite shl64_one by lia.
    rewrite Z.land_spec, Z.lnot_spec by lia.
    rewrite Z.pow2_bits_eqb by lia.
    rewrite Z.testbit_ones by lia.
    replace (0 <=? i) with true by (symmetry; apply Z.leb_le; lia).
    replace (i <? 64) with true by (symmetry; apply Z.ltb_lt; lia).
    rewrite Z.eqb_sym. simpl. apply andb_true_r.
  Qed.

Lemma to_int_range (z : Z) : - 2 ^ 31 <= to_int z < 2 ^ 31.
Proof.
  unfold to_int. pose proof (Z.mod_pos_bound z (2 ^ 32) ltac:(lia)) as H.
  cbv zeta. destruct (Z.ltb_spec (z mod 2 ^ 32) (2 ^ 31)); lia.
Qed.

Lemma to_int_small (z : Z) : - 2 ^ 31 <= z < 2 ^ 31 -> to_int z = z.
Proof.
  intros Hz. unfold to_int. cbv zeta.
  change (2 ^ 32)%Z with 4294967296%Z in *. change (2 ^ 31)%Z with 2147483648%Z in *.
  pose proof (Z.div_mod z 4294967296 ltac:(lia)) as Hdm.
  pose proof (Z.mod_pos_bound z 4294967296 ltac:(lia)) as Hb.
  destruct (Z.ltb_spec (z mod 4294967296) 2147483648); lia.
Qed.

Lemma to_int_idem (z : Z) : to_int (to_int z) = to_int z.
Proof. apply to_int_small, to_int_range. Qed.

End Bits.

Section SupportedMask.

Lemma testbit_x86_mask (max i : Z) :
    0 <= max < 64 ->
    Z.testbit (x86_mask max) i = (0 <=? i) && (i <? max) && negb (is_x86_segment i).
  Proof.
    intros Hmax. unfold x86_mask.
    rewrite !Z.land_spec, testbit_low_bits by lia.
    destruct (Z.leb_spec 0 i) as [H0 | H0]; [| reflexivity].
    destruct (Z.ltb_spec i max) as [H1 | H1]; [| reflexivity].
    rewrite !testbit_all_but by (unfold PERF_REG_X86_DS, PERF_REG_X86_ES,
      PERF_REG_X86_FS, PERF_REG_X86_GS; lia).
    unfold is_x86_segment. rewrite !negb_orb. reflexivity.
  Qed.

Lemma testbit_GetSupportedRegMask (a : ArchType) (i : Z) :
    Z.testbit (GetSupportedRegMask a) i = supported_bit a i.
  Proof.
    destruct a; simpl.
    - apply (testbit_x86_mask PERF_REG_X86_32_MAX). vm_compute. split; [discriminate | reflexivity].
    - apply (testbit_x86_mask PERF_REG_X86_64_MAX). vm_compute. split; [discriminate | reflexivity].
    - apply testbit_low_bits. vm_compute. split; [discriminate | reflexivity].
    - apply testbit_low_bits. vm_compute. split; [discriminate | reflexivity].
    - apply testbit_low_bits. vm_compute. split; [discriminate | reflexivity].
    - apply Z.bits_0.
  Qed.

Lemma supported_bit_range (a : ArchType) (i : Z) :
    supported_bit a i = true -> 0 <= i < 64.
  Proof.
    destruct a; simpl; intros H;
      repeat (apply andb_prop in H; destruct H as [H ?]);
      try discriminate;
      match goal with
      | H1 : (0 <=? i) = true, H2 : (i <? ?m) = true |- _ =>
          apply Z.leb_le in H1; apply Z.ltb_lt in H2;
          assert (m <= 64) by (vm_compute; discriminate); lia
      end.
  Qed.

End SupportedMask.

(** C2. The effective architecture of a sample: X86_64 and ARM64 hosts
    with the 32-bit tag give X86_32 and ARM, X86_32 and ARM hosts with the
    64-bit tag give X86_64 and ARM64, and every other pair of host and tag
    (RISCV64 with either tag among them) gives the host unchanged. *)
Theorem GetArchForAbi_rule (m : ArchType) (abi : Z) :
  (abi = PERF_SAMPLE_REGS_ABI_32 -> m = ARCH_X86_64 -> GetArchForAbi m abi = ARCH_X86_32) /\
  (abi = PERF_SAMPLE_REGS_ABI_32 -> m = ARCH_ARM64 -> GetArchForAbi m abi = ARCH_ARM) /\
  (abi = PERF_SAMPLE_REGS_ABI_64 -> m = ARCH_X86_32 -> GetArchForAbi m abi = ARCH_X86_64) /\
  (abi = PERF_SAMPLE_REGS_ABI_64 -> m = ARCH_ARM -> GetArchForAbi m abi = ARCH_ARM64) /\
  (~ (abi = PERF_SAMPLE_REGS_ABI_32 /\ (m = ARCH_X86_64 \/ m = ARCH_ARM64)) ->
   ~ (abi = PERF_SAMPLE_REGS_ABI_64 /\ (m = ARCH_X86_32 \/ m = ARCH_ARM)) ->
   GetArchForAbi m abi = m) /\
  GetArchForAbi ARCH_RISCV64 abi = ARCH_RISCV64.
Proof.
  unfold GetArchForAbi.
  repeat split.
  - intros -> ->. reflexivity.
  - intros -> ->. reflexivity.
  - intros -> ->. reflexivity.
  - intros -> ->. reflexivity.
  - intros H32 H64.
    destruct (Z.eqb_spec abi PERF_SAMPLE_REGS_ABI_32) as [E32 | _].
    + destruct m; simpl; try reflexivity; exfalso; apply H32; auto.
    + destruct (Z.eqb_spec abi PERF_SAMPLE_REGS_ABI_64) as [E64 | _]; [| reflexivity].
      destruct m; simpl; try reflexivity; exfalso; apply H64; auto.
  - destruct (abi =? PERF_SAMPLE_REGS_ABI_32); [reflexivity |].
    destruct (abi =? PERF_SAMPLE_REGS_ABI_64); reflexivity.
Qed.

Lemma GetArchForAbi_rule_witness :
  GetArchForAbi ARCH_X86_64 1 = ARCH_X86_32 /\ GetArchForAbi ARCH_RISCV64 7 = ARCH_RISCV64.
Proof.
  split.
  - apply (proj1 (GetArchForAbi_rule ARCH_X86_64 1)); reflexivity.
  - apply (proj1 (proj2 (proj2 (proj2 (proj2 (GetArchForAbi_rule ARCH_RISCV64 7)))))).
    + intros [H _]. discriminate H.
    + intros [H _]. discriminate H.
Defined.

(** C5. The supported register mask: on X86_32 and X86_64 bit [i] is set
    exactly for [0 <= i < max] other than DS, ES, FS and GS, which lie in
    that range; on ARM, ARM64 and RISCV64 exactly for [0 <= i < max]; the
    mask of UNSUPPORTED is zero. *)
Theorem GetSupportedRegMask_bits (a : ArchType) (i : Z) :
  Z.testbit (GetSupportedRegMask a) i =
    match a with
    | ARCH_X86_32 =>
        (0 <=? i) && (i <? PERF_REG_X86_32_MAX) &&
        negb ((i =? PERF_REG_X86_DS) || (i =? PERF_REG_X86_ES) ||
              (i =? PERF_REG_X86_FS) || (i =? PERF_REG_X86_GS))
    | ARCH_X86_64 =>
        (0 <=? i) && (i <? PERF_REG_X86_64_MAX) &&
        negb ((i =? PERF_REG_X86_DS) || (i =? PERF_REG_X86_ES) ||
              (i =? PERF_REG_X86_FS) || (i =? PERF_REG_X86_GS))
    | ARCH_ARM => (0 <=? i) && (i <? PERF_REG_ARM_MAX)
    | ARCH_ARM64 => (0 <=? i) && (i <? PERF_REG_ARM64_MAX)
    | ARCH_RISCV64 => (0 <=? i) && (i <? PERF_REG_RISCV_MAX)
    | ARCH_UNSUPPORTED => false
    end
  /\ GetSupportedRegMask ARCH_UNSUPPORTED = 0
  /\ Forall (fun r => 0 <= r < PERF_REG_X86_32_MAX /\ 0 <= r < PERF_REG_X86_64_MAX)
        [PERF_REG_X86_DS; PERF_REG_X86_ES; PERF_REG_X86_FS; PERF_REG_X86_GS].
Proof.
  split; [| split].
  - rewrite testbit_GetSupportedRegMask. destruct a; reflexivity.
  - reflexivity.
  - repeat constructor; vm_compute; discriminate.
Qed.

(** ** The expansion loop *)

Section Expansion.

Variable m : Z.
Variable regs : list Z.

Lemma rank_mono (i k : nat) : (i <= k)%nat -> (rank m i <= rank m k)%nat.
  Proof.
    induction 1 as [| k _ IH]; [lia |]. simpl. lia.
  Qed.

Lemma rank_set_lt (i k : nat) :
    (i < k)%nat -> Z.testbit m (Z.of_nat i) = true -> (rank m i < rank m k)%nat.
  Proof.
    intros Hik Hbit.
    assert (rank m (S i) = S (rank m i)) as HS by (simpl; rewrite Hbit; lia).
    pose proof (rank_mono (S i) k Hik). lia.
  Qed.

Hypothesis regs_length : length regs = popcount64 m.

  (** The loop entered at index [i] with [j] entries consumed, where [j]
      is the number of set bits below [i]: it reads within the packed
      array and leaves the slots below [i] as they were. *)
Lemma expand_from_inv (n i : nat) (dense : list Z) :
    (i + n = 64)%nat -> length dense = 64%nat ->
    exists d,
      expand_from n (Z.of_nat i) (rank m i) m regs dense = Ret d /\
      length d = 64%nat /\
      forall k : nat, (k < 64)%nat ->
        d !! k = if (i <=? k)%nat && Z.testbit m (Z.of_nat k)
                 then regs !! rank m k else dense !! k.
  Proof.
    revert i dense. induction n as [| n IH]; intros i dense Hin Hlen.
    - exists dense. split; [reflexivity | split; [exact Hlen |]].
      intros k Hk. destruct (Nat.leb_spec i k); [lia | reflexivity].
    - cbn [expand_from]. rewrite bit_set_testbit by lia.
      replace (Z.of_nat i + 1) with (Z.of_nat (S i)) by lia.
      destruct (Z.testbit m (Z.of_nat i)) eqn:Hbit.
      + assert (rank m i < length regs)%nat as Hj.
        { rewrite regs_length. apply rank_set_lt; [lia | exact Hbit]. }
        destruct (lookup_lt_is_Some_2 regs (rank m i) Hj) as [v Hv].
        rewrite Hv, Nat2Z.id.
        replace (S (rank m i)) with (rank m (S i)) by (simpl; rewrite Hbit; lia).
        destruct (IH (S i) (<[i := v]> dense)) as (d & Hd & Hdl & Hdk);
          [lia | rewrite length_insert; exact Hlen |].
        exists d. split; [exact Hd | split; [exact Hdl |]].
        intros k Hk. rewrite (Hdk k Hk).
        destruct (Nat.leb_spec (S i) k) as [Hle | Hgt].
        * destruct (Nat.leb_spec i k); [simpl | lia].
          destruct (Z.testbit m (Z.of_nat k)); [reflexivity |].
          apply list_lookup_insert_ne. lia.
        * destruct (Nat.leb_spec i k) as [Hle' | Hgt']; simpl.
          -- assert (k = i) as -> by lia. rewrite Hbit, Hv.
             apply list_lookup_insert_eq. lia.
          -- apply list_lookup_insert_ne. lia.
      + assert (rank m (S i) = rank m i) as HS by (simpl; rewrite Hbit; lia).
        destruct (IH (S i) dense) as (d & Hd & Hdl & Hdk); [lia | exact Hlen |].
        rewrite HS in Hd.
        exists d. split; [exact Hd | split; [exact Hdl |]].
        intros k Hk. rewrite (Hdk k Hk).
        destruct (Nat.leb_spec (S i) k) as [Hle | Hgt].
        * destruct (Nat.leb_spec i k); [reflexivity | lia].
        * destruct (Nat.leb_spec i k) as [Hle' | Hgt']; simpl; [| reflexivity].
          assert (k = i) as -> by lia. rewrite Hbit. reflexivity.
  Qed.

  (** The whole expansion: slot [k] holds the packed entry numbered by
      the set bits below [k] when bit [k] is set, and zero otherwise. *)
Lemma expand_ok :
    exists d,
      expand m regs = Ret d /\
      length d = 64%nat /\
      forall k : nat, (k < 64)%nat ->
        d !! k = if Z.testbit m (Z.of_nat k) then regs !! rank m k else Some 0.
  Proof.
    destruct (expand_from_inv 64 0 (replicate 64 0)) as (d & Hd & Hdl & Hdk);
      [reflexivity | apply length_replicate |].
    exists d. split; [exact Hd | split; [exact Hdl |]].
    intros k Hk. rewrite (Hdk k Hk). cbn [Nat.leb andb].
    destruct (Z.testbit m (Z.of_nat k)); [reflexivity |].
    apply lookup_replicate_2. exact Hk.
  Qed.

  (** The constructor returns, with the mask it was given and the
      expansion followed by the ARM64 program-counter copy. *)
Lemma RegSet_new_ok (cur : ArchType) (abi : Z) :
    exists d,
      expand m regs = Ret d /\
      length d = 64%nat /\
      (forall k : nat, (k < 64)%nat ->
        d !! k = if Z.testbit m (Z.of_nat k) then regs !! rank m k else Some 0) /\
      RegSet_new cur abi m regs =
        Ret (mkRegSet (GetArchForAbi cur abi) m (map_arm64_pc cur abi d)).
  Proof.
    destruct expand_ok as (d & Hd & Hdl & Hdk).
    exists d. repeat split; try assumption.
    unfold RegSet_new. rewrite Hd. reflexivity.
  Qed.

End Expansion.

Section PcCopy.

Lemma map_arm64_pc_other (cur : ArchType) (abi : Z) (d : list Z) (k : nat) :
    k <> Z.to_nat PERF_REG_ARM_PC ->
    map_arm64_pc cur abi d !! k = d !! k.
  Proof.
    intros Hk. unfold map_arm64_pc.
    destruct (ArchType_eqb cur ARCH_ARM64 && (abi =? PERF_SAMPLE_REGS_ABI_32));
      [| reflexivity].
    apply list_lookup_insert_ne. congruence.
  Qed.

Lemma map_arm64_pc_inactive (cur : ArchType) (abi : Z) (d : list Z) :
    cur <> ARCH_ARM64 \/ abi <> PERF_SAMPLE_REGS_ABI_32 ->
    map_arm64_pc cur abi d = d.
  Proof.
    intros H. unfold map_arm64_pc.
    destruct cur; try reflexivity. simpl.
    destruct (Z.eqb_spec abi PERF_SAMPLE_REGS_ABI_32); [| reflexivity].
    destruct H; congruence.
  Qed.

Lemma map_arm64_pc_copy (d : list Z) :
    length d = 64%nat ->
    map_arm64_pc ARCH_ARM64 PERF_SAMPLE_REGS_ABI_32 d !! Z.to_nat PERF_REG_ARM_PC
      = d !! Z.to_nat PERF_REG_ARM64_PC.
  Proof.
    intros Hlen. unfold map_arm64_pc. simpl andb. cbv iota.
    rewrite list_lookup_insert_eq by (rewrite Hlen; vm_compute; lia).
    symmetry. apply list_lookup_lookup_total_lt. rewrite Hlen. vm_compute. lia.
  Qed.

End PcCopy.

(** Checking a decidable property at every register index. *)
Lemma forall_regno (P : Z -> bool) :
  forallb P (map Z.of_nat (seq 0 64)) = true ->
  forall i, 0 <= i < 64 -> P i = true.
Proof.
  intros H i Hi. rewrite forallb_forall in H. apply H.
  apply in_map_iff. exists (Z.to_nat i). split; [lia |].
  apply in_seq. lia.
Qed.

(** ** Queries on a register set *)

Lemma GetRegValue_bit (rs : RegSet) (regno value : Z) :
  0 <= regno < 64 ->
  GetRegValue rs regno value =
    if Z.testbit (valid_mask rs) regno
    then Ret (true, data rs !!! Z.to_nat regno)
    else Ret (false, value).
Proof.
  intros Hr. unfold GetRegValue.
  destruct (Z.ltb_spec regno 64); [| lia].
  rewrite bit_set_testbit by lia. reflexivity.
Qed.

Lemma sp_regno_range (a : ArchType) (r : Z) : sp_regno a = Some r -> 0 <= r < 64.
Proof. destruct a; intros [= <-]; vm_compute; split; congruence. Qed.

Lemma ip_regno_range (a : ArchType) (r : Z) : ip_regno a = Some r -> 0 <= r < 64.
Proof. destruct a; intros [= <-]; vm_compute; split; congruence. Qed.

Lemma GetSpRegValue_dispatch (rs : RegSet) (value : Z) :
  GetSpRegValue rs value =
    match sp_regno (arch rs) with
    | Some r => GetRegValue rs r value
    | None => Ret (false, value)
    end.
Proof. unfold GetSpRegValue. destruct (arch rs); reflexivity. Qed.

Lemma GetIpRegValue_dispatch (rs : RegSet) (value : Z) :
  GetIpRegValue rs value =
    match ip_regno (arch rs) with
    | Some r => GetRegValue rs r value
    | None => Ret (false, value)
    end.
Proof. unfold GetIpRegValue. destruct (arch rs); reflexivity. Qed.

(** C3. For a register index below 64, [GetRegValue] returns true with
    [data[regno]] in the output exactly when bit [regno] of [valid_mask]
    is set, and returns false with the output as it was when the bit is
    not set. *)
Theorem GetRegValue_spec (rs : RegSet) (regno value : Z) :
  0 <= regno < 64 ->
  (Z.testbit (valid_mask rs) regno = true ->
     GetRegValue rs regno value = Ret (true, data rs !!! Z.to_nat regno)) /\
  (Z.testbit (valid_mask rs) regno = false ->
     GetRegValue rs regno value = Ret (false, value)) /\
  (exists v, GetRegValue rs regno value = Ret (Z.testbit (valid_mask rs) regno, v)).
Proof.
  intros Hr. rewrite GetRegValue_bit by exact Hr.
  destruct (Z.testbit (valid_mask rs) regno).
  - split; [reflexivity | split; [discriminate | eexists; reflexivity]].
  - split; [discriminate | split; [reflexivity | eexists; reflexivity]].
Qed.

Lemma GetRegValue_spec_witness :
  GetRegValue (mkRegSet ARCH_ARM 6 [10; 11; 12; 13]) 2 99 = Ret (true, 12) /\
  GetRegValue (mkRegSet ARCH_ARM 6 [10; 11; 12; 13]) 3 99 = Ret (false, 99).
Proof.
  split.
  - apply (proj1 (GetRegValue_spec (mkRegSet ARCH_ARM 6 [10; 11; 12; 13]) 2 99
                    ltac:(lia))).
    reflexivity.
  - apply (proj1 (proj2 (GetRegValue_spec (mkRegSet ARCH_ARM 6 [10; 11; 12; 13]) 3 99
                    ltac:(lia)))).
    reflexivity.
Defined.

(** C9. [GetSpRegValue] and [GetIpRegValue] return false, with the output
    as it was, when the architecture is UNSUPPORTED; otherwise they are
    [GetRegValue] at the architecture's stack-pointer and program-counter
    index (one instruction-pointer index for X86_32 and X86_64), and so
    return true exactly when the presence bit of that register is set. *)
Theorem GetSpIpRegValue_dispatch (rs : RegSet) (value : Z) :
  (arch rs = ARCH_UNSUPPORTED ->
     GetSpRegValue rs value = Ret (false, value) /\
     GetIpRegValue rs value = Ret (false, value)) /\
  GetSpRegValue rs value =
    match arch rs with
    | ARCH_X86_32 => GetRegValue rs PERF_REG_X86_SP value
    | ARCH_X86_64 => GetRegValue rs PERF_REG_X86_SP value
    | ARCH_ARM => GetRegValue rs PERF_REG_ARM_SP value
    | ARCH_ARM64 => GetRegValue rs PERF_REG_ARM64_SP value
    | ARCH_RISCV64 => GetRegValue rs PERF_REG_RISCV_SP value
    | ARCH_UNSUPPORTED => Ret (false, value)
    end /\
  GetIpRegValue rs value =
    match arch rs with
    | ARCH_X86_32 => GetRegValue rs PERF_REG_X86_IP value
    | ARCH_X86_64 => GetRegValue rs PERF_REG_X86_IP value
    | ARCH_ARM => GetRegValue rs PERF_REG_ARM_PC value
    | ARCH_ARM64 => GetRegValue rs PERF_REG_ARM64_PC value
    | ARCH_RISCV64 => GetRegValue rs PERF_REG_RISCV_PC value
    | ARCH_UNSUPPORTED => Ret (false, value)
    end /\
  (forall r, sp_regno (arch rs) = Some r ->
     GetSpRegValue rs value =
       if Z.testbit (valid_mask rs) r
       then Ret (true, data rs !!! Z.to_nat r) else Ret (false, value)) /\
  (forall r, ip_regno (arch rs) = Some r ->
     GetIpRegValue rs value =
       if Z.testbit (valid_mask rs) r
       then Ret (true, data rs !!! Z.to_nat r) else Ret (false, value)).
Proof.
  split; [| split; [| split; [| split]]].
  - intros Harch. unfold GetSpRegValue, GetIpRegValue. rewrite Harch.
    split; reflexivity.
  - unfold GetSpRegValue. destruct (arch rs); reflexivity.
  - unfold GetIpRegValue. destruct (arch rs); reflexivity.
  - intros r Hr. rewrite GetSpRegValue_dispatch, Hr.
    apply GetRegValue_bit. eapply sp_regno_range. exact Hr.
  - intros r Hr. rewrite GetIpRegValue_dispatch, Hr.
    apply GetRegValue_bit. eapply ip_regno_range. exact Hr.
Qed.

Lemma GetSpIpRegValue_dispatch_witness :
  GetSpRegValue (mkRegSet ARCH_UNSUPPORTED 255 (replicate 64 5)) 99 = Ret (false, 99) /\
  GetIpRegValue (mkRegSet ARCH_X86_64 256 (replicate 64 5)) 99 = Ret (true, 5).
Proof.
  split.
  - apply (proj1 (GetSpIpRegValue_dispatch
                    (mkRegSet ARCH_UNSUPPORTED 255 (replicate 64 5)) 99)).
    reflexivity.
  - apply (proj2 (proj2 (proj2 (proj2 (GetSpIpRegValue_dispatch
                    (mkRegSet ARCH_X86_64 256 (replicate 64 5)) 99)))) 8).
    reflexivity.
Defined.

(** ** Construction of a register set *)

Lemma testbit_mask_2_5_9 (i : Z) :
  0 <= i < 64 -> Z.testbit mask_2_5_9 i = (i =? 2) || (i =? 5) || (i =? 9).
Proof.
  intros Hi. apply eqb_prop.
  revert i Hi. apply forall_regno. vm_compute. reflexivity.
Qed.

(** C1. For a 64-bit mask [m] and a packed array with one entry per set
    bit of [m], the constructor returns; its walk over the indices 0..63
    leaves in slot [i] the packed entry numbered by the set bits below
    [i] when bit [i] is set and zero otherwise; the register set has
    these slots (the ARM program-counter slot apart on an ARM64 host
    with a 32-bit sample) and the mask [m].  With bits 2, 5 and 9 set and
    entries [v0], [v1], [v2], slots 2, 5 and 9 hold [v0], [v1], [v2] and
    [GetRegValue] returns true exactly at 2, 5 and 9. *)
Theorem RegSet_new_expands (cur : ArchType) (abi m : Z) (regs : list Z) :
  is_uint64 m ->
  length regs = popcount64 m ->
  exists dense rs,
    expand m regs = Ret dense /\
    (forall i : nat, (i < 64)%nat ->
       dense !! i = if Z.testbit m (Z.of_nat i) then regs !! rank m i else Some 0) /\
    RegSet_new cur abi m regs = Ret rs /\
    valid_mask rs = m /\
    data rs = map_arm64_pc cur abi dense /\
    (forall i : nat, (i < 64)%nat -> Z.testbit m (Z.of_nat i) = true ->
       i <> Z.to_nat PERF_REG_ARM_PC \/ cur <> ARCH_ARM64 \/ abi <> PERF_SAMPLE_REGS_ABI_32 ->
       data rs !! i = regs !! rank m i) /\
    (m = mask_2_5_9 ->
       forall v0 v1 v2, regs = [v0; v1; v2] ->
         data rs !! 2%nat = Some v0 /\
         data rs !! 5%nat = Some v1 /\
         data rs !! 9%nat = Some v2 /\
         forall regno value, 0 <= regno < 64 ->
           exists b v, GetRegValue rs regno value = Ret (b, v) /\
                       (b = true <-> regno = 2 \/ regno = 5 \/ regno = 9)).
Proof.
  intros _ Hlen.
  destruct (RegSet_new_ok m regs Hlen cur abi) as (d & Hd & Hdl & Hdk & Hnew).
  exists d, (mkRegSet (GetArchForAbi cur abi) m (map_arm64_pc cur abi d)).
  split; [exact Hd |]. split; [exact Hdk |]. split; [exact Hnew |].
  split; [reflexivity |]. split; [reflexivity |]. split.
  - intros i Hi Hbit Hfree. cbn [data].
    destruct Hfree as [Hne | Hoff].
    + rewrite map_arm64_pc_other by exact Hne. rewrite (Hdk i Hi), Hbit. reflexivity.
    + rewrite map_arm64_pc_inactive by exact Hoff. rewrite (Hdk i Hi), Hbit. reflexivity.
  - intros -> v0 v1 v2 ->. cbn [data valid_mask].
    rewrite !map_arm64_pc_other by (vm_compute; lia).
    rewrite !Hdk by lia.
    split; [reflexivity |]. split; [reflexivity |]. split; [reflexivity |].
    intros regno value Hr. rewrite GetRegValue_bit by exact Hr. cbn [valid_mask].
    rewrite testbit_mask_2_5_9 by exact Hr.
    destruct (Z.eqb_spec regno 2) as [-> | N2].
    { do 2 eexists. split; [reflexivity |]. split; auto. }
    destruct (Z.eqb_spec regno 5) as [-> | N5].
    { do 2 eexists. split; [reflexivity |]. split; auto. }
    destruct (Z.eqb_spec regno 9) as [-> | N9].
    { do 2 eexists. split; [reflexivity |]. split; auto. }
    do 2 eexists. split; [reflexivity |].
    split; [discriminate | intros [? | [? | ?]]; contradiction].
Qed.

Lemma RegSet_new_expands_witness :
  exists rs,
    RegSet_new ARCH_ARM64 PERF_SAMPLE_REGS_ABI_32 mask_2_5_9 [70; 80; 90] = Ret rs /\
    data rs !! 2%nat = Some 70 /\ data rs !! 5%nat = Some 80 /\ data rs !! 9%nat = Some 90.
Proof.
  destruct (RegSet_new_expands ARCH_ARM64 PERF_SAMPLE_REGS_ABI_32 mask_2_5_9 [70; 80; 90])
    as (d & rs & _ & _ & Hnew & _ & _ & _ & H259).
  - vm_compute. split; [discriminate | reflexivity].
  - reflexivity.
  - exists rs. split; [exact Hnew |].
    destruct (H259 eq_refl 70 80 90 eq_refl) as (H2 & H5 & H9 & _).
    repeat split; assumption.
Defined.

(** C4. On an ARM64 host with a 32-bit sample, after construction the ARM
    program-counter slot holds the value of the ARM64 program-counter
    slot, which is the value the expansion left there, whether or not the
    ARM program-counter bit is set in the mask. *)
Theorem RegSet_new_arm64_abi32_pc (m : Z) (regs : list Z) :
  is_uint64 m ->
  length regs = popcount64 m ->
  exists dense rs,
    expand m regs = Ret dense /\
    RegSet_new ARCH_ARM64 PERF_SAMPLE_REGS_ABI_32 m regs = Ret rs /\
    data rs !! Z.to_nat PERF_REG_ARM_PC = data rs !! Z.to_nat PERF_REG_ARM64_PC /\
    data rs !! Z.to_nat PERF_REG_ARM64_PC = dense !! Z.to_nat PERF_REG_ARM64_PC /\
    dense !! Z.to_nat PERF_REG_ARM64_PC =
      (if Z.testbit m PERF_REG_ARM64_PC
       then regs !! rank m (Z.to_nat PERF_REG_ARM64_PC) else Some 0).
Proof.
  intros _ Hlen.
  destruct (RegSet_new_ok m regs Hlen ARCH_ARM64 PERF_SAMPLE_REGS_ABI_32)
    as (d & Hd & Hdl & Hdk & Hnew).
  exists d, (mkRegSet (GetArchForAbi ARCH_ARM64 PERF_SAMPLE_REGS_ABI_32) m
               (map_arm64_pc ARCH_ARM64 PERF_SAMPLE_REGS_ABI_32 d)).
  split; [exact Hd |]. split; [exact Hnew |]. cbn [data].
  assert (map_arm64_pc ARCH_ARM64 PERF_SAMPLE_REGS_ABI_32 d !! Z.to_nat PERF_REG_ARM64_PC
          = d !! Z.to_nat PERF_REG_ARM64_PC) as Hpc64.
  { apply map_arm64_pc_other. vm_compute. lia. }
  split; [| split].
  - rewrite Hpc64. apply map_arm64_pc_copy. exact Hdl.
  - exact Hpc64.
  - rewrite Hdk by (vm_compute; lia). reflexivity.
Qed.

Lemma RegSet_new_arm64_abi32_pc_witness :
  exists rs,
    RegSet_new ARCH_ARM64 PERF_SAMPLE_REGS_ABI_32 (2 ^ 32 + 1) [70; 80] = Ret rs /\
    data rs !! 15%nat = Some 80 /\ data rs !! 32%nat = Some 80.
Proof.
  destruct (RegSet_new_arm64_abi32_pc (2 ^ 32 + 1) [70; 80])
    as (d & rs & _ & Hnew & H15 & H32 & Hd).
  - vm_compute. split; [discriminate | reflexivity].
  - reflexivity.
  - exists rs. split; [exact Hnew |].
    assert (data rs !! 32%nat = Some 80) as E.
    { change 32%nat with (Z.to_nat PERF_REG_ARM64_PC). rewrite H32, Hd. reflexivity. }
    split; [| exact E].
    change 15%nat with (Z.to_nat PERF_REG_ARM_PC). rewrite H15. exact E.
Defined.

(** C10. On an ARM64 host with a 32-bit sample the constructor stores the
    mask it was given: the register set is an ARM one whose ARM
    program-counter slot holds the ARM64 program-counter value while,
    when the ARM program-counter bit of the mask is not set,
    [GetRegValue] at that index and [GetIpRegValue] return false with the
    output as it was. *)
Theorem RegSet_new_arm64_abi32_mask (m : Z) (regs : list Z) :
  is_uint64 m ->
  length regs = popcount64 m ->
  exists rs,
    RegSet_new ARCH_ARM64 PERF_SAMPLE_REGS_ABI_32 m regs = Ret rs /\
    valid_mask rs = m /\
    arch rs = ARCH_ARM /\
    data rs !! Z.to_nat PERF_REG_ARM_PC = data rs !! Z.to_nat PERF_REG_ARM64_PC /\
    (Z.testbit m PERF_REG_ARM_PC = false ->
       forall value,
         GetRegValue rs PERF_REG_ARM_PC value = Ret (false, value) /\
         GetIpRegValue rs value = Ret (false, value)).
Proof.
  intros _ Hlen.
  destruct (RegSet_new_ok m regs Hlen ARCH_ARM64 PERF_SAMPLE_REGS_ABI_32)
    as (d & Hd & Hdl & Hdk & Hnew).
  eexists. split; [exact Hnew |].
  split; [reflexivity |]. split; [reflexivity |]. split.
  - cbn [data]. rewrite map_arm64_pc_copy by exact Hdl.
    symmetry. apply map_arm64_pc_other. vm_compute. lia.
  - intros Hbit value.
    assert (forall rs', valid_mask rs' = m ->
              GetRegValue rs' PERF_REG_ARM_PC value = Ret (false, value)) as Hget.
    { intros rs' Hm. rewrite GetRegValue_bit by (vm_compute; split; congruence).
      rewrite Hm, Hbit. reflexivity. }
    split.
    + apply Hget. reflexivity.
    + rewrite GetIpRegValue_dispatch. cbn [arch]. apply Hget. reflexivity.
Qed.

Lemma RegSet_new_arm64_abi32_mask_witness :
  exists rs,
    RegSet_new ARCH_ARM64 PERF_SAMPLE_REGS_ABI_32 (2 ^ 32 + 1) [70; 80] = Ret rs /\
    data rs !! 15%nat = data rs !! 32%nat /\
    GetIpRegValue rs 99 = Ret (false, 99).
Proof.
  destruct (RegSet_new_arm64_abi32_mask (2 ^ 32 + 1) [70; 80])
    as (rs & Hnew & _ & _ & Hdata & Hget).
  - vm_compute. split; [discriminate | reflexivity].
  - reflexivity.
  - exists rs. split; [exact Hnew |]. split; [exact Hdata |].
    apply (Hget eq_refl 99).
Defined.

(** ** Architecture names *)

Section ArchNames.

Local Open Scope string_scope.

Lemma StartsWith_arm (s : string) :
    StartsWith s "arm" = true <-> exists t, s = "arm" ++ t.
  Proof.
    unfold StartsWith. split.
    - destruct s as [| c1 [| c2 [| c3 t]]]; cbn [String.prefix];
        repeat match goal with
               | |- context [ascii_dec ?a ?b] => destruct (ascii_dec a b)
               end; try discriminate.
      intros _. subst. exists t. reflexivity.
    - intros [t ->]. destruct t; reflexivity.
  Qed.

  (** What [GetArchType] computes on a name that begins with "arm". *)
Lemma GetArchType_arm (t : string) :
    GetArchType ("arm" ++ t) =
      if Ascii.eqb (char_at ("arm" ++ t) 3) "v"
      then let* version := atoi (c_str_from 4 ("arm" ++ t)) in
           if (8 <=? version)%Z then Ret (ARCH_ARM64, []) else Ret (ARCH_ARM, [])
      else Ret (ARCH_ARM, []).
  Proof.
    assert (StartsWith ("arm" ++ t) "arm" = true) as Hpre
      by (apply StartsWith_arm; exists t; reflexivity).
    unfold GetArchType. rewrite Hpre. reflexivity.
  Qed.

Lemma GetArchType_other (s : string) :
    s <> "x86" -> s <> "i686" -> s <> "x86_64" -> s <> "riscv64" -> s <> "aarch64" ->
    StartsWith s "arm" = false ->
    GetArchType s = Ret (ARCH_UNSUPPORTED, ["unsupported arch: " ++ s]).
  Proof.
    intros H1 H2 H3 H4 H5 H6. unfold GetArchType.
    apply String.eqb_neq in H1, H2, H3, H4, H5.
    rewrite H1, H2, H3, H4, H5, H6. reflexivity.
  Qed.

(** [atoi] returns, and what it returns is an [int]. *)
Lemma atoi_returns (u : string) :
  exists n, atoi u = Ret n /\ (INT_MIN <= n <= INT_MAX)%Z.
Proof.
  exists (to_int (strtol10 u)). split; [reflexivity |].
  pose proof (to_int_range (strtol10 u)). unfold INT_MIN, INT_MAX. lia.
Qed.

(** A number that is an [int] is returned as it is. *)
Lemma atoi_in_range (u : string) :
  (INT_MIN <= decimal_prefix u <= INT_MAX)%Z -> atoi u = Ret (decimal_prefix u).
Proof.
  unfold INT_MIN, INT_MAX. intros Hu. unfold atoi, strtol10, LONG_MIN, LONG_MAX.
  rewrite Z.min_r, Z.max_r by lia.
  rewrite to_int_small by lia. reflexivity.
Qed.

Lemma GetArchType_armv (u : string) (n : Z) :
  atoi u = Ret n ->
  GetArchType ("armv" ++ u) = Ret (if (8 <=? n)%Z then ARCH_ARM64 else ARCH_ARM, []).
Proof.
  intros Hu.
  change ("armv" ++ u) with ("arm" ++ String "v" u).
  rewrite GetArchType_arm. cbn [char_at String.get String.append c_str_from].
  change (Ascii.eqb "v" "v") with true. cbv iota.
  rewrite Hu. cbn [obind]. destruct (8 <=? n)%Z; reflexivity.
Qed.

End ArchNames.

(** C6. [GetArchType] on every string [s]: "x86" and "i686" give X86_32,
    "x86_64" gives X86_64, "riscv64" gives RISCV64, "aarch64" gives ARM64;
    a string that begins with "arm" gives ARM64 when its fourth character
    is 'v' and the number parsed from what follows is at least 8, and ARM
    when the fourth character is not 'v' or that number is below 8 (so
    "armv8l" gives ARM64, "armv7l" and "arm" give ARM); every other
    string gives UNSUPPORTED, with one line in the error log.  The parse
    of what follows "armv" always gives a number, the one written there
    when it is an [int], so every string is covered and [GetArchType]
    returns on every string. *)
Theorem GetArchType_spec (s : string) :
  (s = "x86"%string \/ s = "i686"%string -> GetArchType s = Ret (ARCH_X86_32, [])) /\
  (s = "x86_64"%string -> GetArchType s = Ret (ARCH_X86_64, [])) /\
  (s = "riscv64"%string -> GetArchType s = Ret (ARCH_RISCV64, [])) /\
  (s = "aarch64"%string -> GetArchType s = Ret (ARCH_ARM64, [])) /\
  (forall u n, s = ("armv" ++ u)%string -> atoi u = Ret n -> 8 <= n ->
     GetArchType s = Ret (ARCH_ARM64, [])) /\
  (forall u n, s = ("armv" ++ u)%string -> atoi u = Ret n -> n < 8 ->
     GetArchType s = Ret (ARCH_ARM, [])) /\
  (s = "arm"%string -> GetArchType s = Ret (ARCH_ARM, [])) /\
  (forall c t, s = ("arm" ++ String c t)%string -> c <> "v"%char ->
     GetArchType s = Ret (ARCH_ARM, [])) /\
  (s <> "x86"%string -> s <> "i686"%string -> s <> "x86_64"%string ->
   s <> "riscv64"%string -> s <> "aarch64"%string ->
   (forall t, s <> ("arm" ++ t)%string) ->
     GetArchType s = Ret (ARCH_UNSUPPORTED, [("unsupported arch: " ++ s)%string])) /\
  GetArchType "armv8l" = Ret (ARCH_ARM64, []) /\
  GetArchType "armv7l" = Ret (ARCH_ARM, []) /\
  GetArchType "arm" = Ret (ARCH_ARM, []) /\
  (forall u, s = ("armv" ++ u)%string ->
     exists n, atoi u = Ret n /\ INT_MIN <= n <= INT_MAX /\
               GetArchType s = Ret (if 8 <=? n then ARCH_ARM64 else ARCH_ARM, [])) /\
  (forall u, INT_MIN <= decimal_prefix u <= INT_MAX -> atoi u = Ret (decimal_prefix u)) /\
  (forall t, s = ("arm" ++ t)%string ->
     GetArchType s = Ret (ARCH_ARM, []) \/ GetArchType s = Ret (ARCH_ARM64, [])) /\
  (exists a log, GetArchType s = Ret (a, log)).
Proof.
  assert (forall u, exists n, atoi u = Ret n /\ INT_MIN <= n <= INT_MAX /\
            GetArchType ("armv" ++ u) = Ret (if 8 <=? n then ARCH_ARM64 else ARCH_ARM, []))
    as Harmv.
  { intros u. destruct (atoi_returns u) as (n & Hn & Hr).
    exists n. split; [exact Hn | split; [exact Hr |]]. apply GetArchType_armv. exact Hn. }
  assert (forall t, GetArchType ("arm" ++ t) = Ret (ARCH_ARM, []) \/
                    GetArchType ("arm" ++ t) = Ret (ARCH_ARM64, [])) as Harm.
  { intros [| c u]; [left; reflexivity |].
    destruct (Ascii.eqb_spec c "v") as [-> | Hc].
    - destruct (Harmv u) as (n & _ & _ & E).
      change ("arm" ++ String "v" u)%string with ("armv" ++ u)%string. rewrite E.
      destruct (8 <=? n); [right | left]; reflexivity.
    - left. rewrite GetArchType_arm. cbn [char_at String.get String.append].
      apply Ascii.eqb_neq in Hc. rewrite Hc. reflexivity. }
  split; [intros [-> | ->]; reflexivity |].
  split; [intros ->; reflexivity |].
  split; [intros ->; reflexivity |].
  split; [intros ->; reflexivity |].
  split.
  { intros u n -> Hu Hn. rewrite (GetArchType_armv u n Hu).
    destruct (Z.leb_spec 8 n); [reflexivity | lia]. }
  split.
  { intros u n -> Hu Hn. rewrite (GetArchType_armv u n Hu).
    destruct (Z.leb_spec 8 n); [lia | reflexivity]. }
  split; [intros ->; reflexivity |].
  split.
  { intros c t -> Hc. rewrite GetArchType_arm.
    cbn [char_at String.get String.append].
    apply Ascii.eqb_neq in Hc. rewrite Hc. reflexivity. }
  split.
  { intros H1 H2 H3 H4 H5 Hnarm. apply GetArchType_other; try assumption.
    destruct (StartsWith s "arm") eqn:E; [| reflexivity].
    apply StartsWith_arm in E. destruct E as [t ->]. exfalso. exact (Hnarm t eq_refl). }
  split; [reflexivity |]. split; [reflexivity |]. split; [reflexivity |].
  split; [intros u ->; apply Harmv |].
  split; [exact atoi_in_range |].
  split; [intros t ->; apply Harm |].
  destruct (StartsWith s "arm") eqn:E.
  - apply StartsWith_arm in E. destruct E as [t ->].
    destruct (Harm t) as [H | H]; rewrite H; eauto.
  - unfold GetArchType. rewrite E.
    destruct ((s =? "x86")%string || (s =? "i686")%string); [eauto |].
    destruct (s =? "x86_64")%string; [eauto |].
    destruct (s =? "riscv64")%string; [eauto |].
    destruct (s =? "aarch64")%string; eauto.
Qed.

Lemma GetArchType_spec_witness :
  GetArchType "armv8l" = Ret (ARCH_ARM64, []) /\
  GetArchType "armv7-a" = Ret (ARCH_ARM, []) /\
  GetArchType "armeabi" = Ret (ARCH_ARM, []) /\
  GetArchType "mips" = Ret (ARCH_UNSUPPORTED, ["unsupported arch: mips"%string]).
Proof.
  split; [| split; [| split]].
  - apply (proj1 (proj2 (proj2 (proj2 (proj2 (GetArchType_spec "armv8l"))))) "8l"%string 8);
      [reflexivity | reflexivity | lia].
  - apply (proj1 (proj2 (proj2 (proj2 (proj2 (proj2 (GetArchType_spec "armv7-a"))))))
             "7-a"%string 7); [reflexivity | reflexivity | lia].
  - apply (proj1 (proj2 (proj2 (proj2 (proj2 (proj2 (proj2 (proj2
             (GetArchType_spec "armeabi")))))))) "e"%char "abi"%string);
      [reflexivity | discriminate].
  - apply (proj1 (proj2 (proj2 (proj2 (proj2 (proj2 (proj2 (proj2 (proj2
             (GetArchType_spec "mips"))))))))));
      discriminate.
Defined.

(** ** Register names *)

Section Names.

Local Open Scope string_scope.

Lemma returns_name_true (r : outcome string) (o : option string) :
    returns_name r o = true -> exists name, o = Some name /\ r = Ret name.
  Proof.
    destruct r as [s | |], o as [name |]; simpl; try discriminate.
    intros H. apply String.eqb_eq in H. subst. exists name. split; reflexivity.
  Qed.

  (** Every index of a supported mask, checked one by one. *)
Lemma GetRegName_checked (a : ArchType) :
    forallb (fun i => implb (supported_bit a i)
                        (returns_name (GetRegName i a) (documented_name a i)))
            (map Z.of_nat (seq 0 64)) = true.
  Proof. destruct a; vm_compute; reflexivity. Qed.

Lemma GetRegName_in_mask (a : ArchType) (i : Z) :
    supported_bit a i = true ->
    exists name, documented_name a i = Some name /\ GetRegName i a = Ret name.
  Proof.
    intros Hbit. apply returns_name_true.
    pose proof (forall_regno _ (GetRegName_checked a) i
                  (supported_bit_range a i Hbit)) as H.
    cbv beta in H. rewrite Hbit in H. exact H.
  Qed.

End Names.

(** C7. For every architecture and every register index whose bit is set
    in the architecture's supported mask, [GetRegName] returns, without a
    fatal error, the documented name of the register: "ax" for the x86
    AX index, "r8" to "r15" for the X86_64 indices R8 to R15, "r5" for
    ARM64 X5, "a0" for RISCV64 A0. *)
Theorem GetRegName_total_on_mask (a : ArchType) (regno : Z) :
  Z.testbit (GetSupportedRegMask a) regno = true ->
  (exists name, documented_name a regno = Some name /\ GetRegName regno a = Ret name) /\
  GetRegName PERF_REG_X86_AX ARCH_X86_32 = Ret "ax"%string /\
  GetRegName PERF_REG_X86_AX ARCH_X86_64 = Ret "ax"%string /\
  map (fun r => GetRegName r ARCH_X86_64)
      [PERF_REG_X86_R8; PERF_REG_X86_R8 + 1; PERF_REG_X86_R8 + 2; PERF_REG_X86_R8 + 3;
       PERF_REG_X86_R8 + 4; PERF_REG_X86_R8 + 5; PERF_REG_X86_R8 + 6; PERF_REG_X86_R15]
    = map Ret ["r8"; "r9"; "r10"; "r11"; "r12"; "r13"; "r14"; "r15"]%string /\
  GetRegName (PERF_REG_ARM64_X0 + 5) ARCH_ARM64 = Ret "r5"%string /\
  GetRegName PERF_REG_RISCV_A0 ARCH_RISCV64 = Ret "a0"%string.
Proof.
  intros Hbit. rewrite testbit_GetSupportedRegMask in Hbit.
  split; [apply GetRegName_in_mask; exact Hbit |].
  repeat split; reflexivity.
Qed.

Lemma GetRegName_total_on_mask_witness :
  GetRegName 20 ARCH_X86_64 = Ret "r12"%string.
Proof.
  destruct (GetRegName_total_on_mask ARCH_X86_64 20 eq_refl) as [(name & Hdoc & Hname) _].
  rewrite Hname. injection Hdoc as <-. reflexivity.
Defined.

(** C8 as stated fails: index 16 with architecture ARM is outside R0..R10
    and is not a key of the fp/ip/sp/lr/pc table, and [GetRegName]
    returns "r16" for it. *)
Lemma GetRegName_arm_unknown_counterexample :
  ~ (forall regno : Z,
       is_uint64 regno ->
       ~ (PERF_REG_ARM_R0 <= regno <= PERF_REG_ARM_R10) ->
       find arm_reg_map regno = None ->
       GetRegName regno ARCH_ARM = Ret "unknown"%string).
Proof.
  intros H.
  assert (GetRegName 16 ARCH_ARM = Ret "unknown"%string) as E.
  { apply H.
    - vm_compute. split; [discriminate | reflexivity].
    - unfold PERF_REG_ARM_R0, PERF_REG_ARM_R10. lia.
    - reflexivity. }
  vm_compute in E. discriminate E.
Qed.

Section ArmFallthrough.

Local Open Scope string_scope.

Lemma find_arm64_reg_map (k : Z) :
    find arm64_reg_map k = None \/ find arm64_reg_map k = Some "lr" \/
    find arm64_reg_map k = Some "sp" \/ find arm64_reg_map k = Some "pc".
  Proof.
    unfold arm64_reg_map. cbn [find].
    destruct (PERF_REG_ARM64_LR =? k)%Z; [auto |].
    destruct (PERF_REG_ARM64_SP =? k)%Z; [auto |].
    destruct (PERF_REG_ARM64_PC =? k)%Z; auto.
  Qed.

Lemma GetRegName_arm64_not_unknown (reg : Z) :
    GetRegName_arm64 reg <> Ret "unknown".
  Proof.
    unfold GetRegName_arm64, checked_find, StringPrintf_r.
    destruct ((PERF_REG_ARM64_X0 <=? reg)%Z && (reg <=? PERF_REG_ARM64_X29)%Z).
    - cbn [String.append]. discriminate.
    - destruct (find_arm64_reg_map (to_size_t reg)) as [E | [E | [E | E]]];
        rewrite E; discriminate.
  Qed.

End ArmFallthrough.

(** C8, amended.  A register index passed with architecture ARM that,
    as an [int], is neither in R0..R10 nor a key of the fp/ip/sp/lr/pc
    table is named as under ARM64: "r<n>" for X0..X29, "lr", "sp" or
    "pc" for the ARM64 LR, SP and PC indices, and a fatal error for every
    other index; the result is never "unknown". *)
Theorem GetRegName_arm_falls_through (regno : Z) :
  ~ (PERF_REG_ARM_R0 <= to_int regno <= PERF_REG_ARM_R10) ->
  find arm_reg_map (to_size_t (to_int regno)) = None ->
  GetRegName regno ARCH_ARM = GetRegName regno ARCH_ARM64 /\
  GetRegName regno ARCH_ARM =
    (if (PERF_REG_ARM64_X0 <=? to_int regno) && (to_int regno <=? PERF_REG_ARM64_X29)
     then Ret ("r" ++ dec (to_int regno - PERF_REG_ARM64_X0))%string
     else match find arm64_reg_map (to_size_t (to_int regno)) with
          | Some name => Ret name
          | None => Fatal ("unknown reg " ++ dec (to_int regno))%string
          end) /\
  GetRegName regno ARCH_ARM <> Ret "unknown"%string.
Proof.
  intros Hrange Hfind.
  assert (GetRegName regno ARCH_ARM = GetRegName_arm64 (to_int regno)) as E.
  { unfold GetRegName. rewrite Hfind.
    destruct (Z.leb_spec PERF_REG_ARM_R0 (to_int regno));
      destruct (Z.leb_spec (to_int regno) PERF_REG_ARM_R10);
      try reflexivity.
    exfalso. apply Hrange. split; assumption. }
  rewrite E. split; [reflexivity |]. split; [reflexivity |].
  apply GetRegName_arm64_not_unknown.
Qed.

Lemma GetRegName_arm_falls_through_witness :
  GetRegName 16 ARCH_ARM = Ret "r16"%string /\
  GetRegName 32 ARCH_ARM = Ret "pc"%string /\
  GetRegName 40 ARCH_ARM = Fatal "unknown reg 40".
Proof.
  split; [| split].
  - rewrite (proj1 (proj2 (GetRegName_arm_falls_through 16
               ltac:(vm_compute; intros [_ H]; apply H; reflexivity) eq_refl))).
    reflexivity.
  - rewrite (proj1 (proj2 (GetRegName_arm_falls_through 32
               ltac:(vm_compute; intros [_ H]; apply H; reflexivity) eq_refl))).
    reflexivity.
  - rewrite (proj1 (proj2 (GetRegName_arm_falls_through 40
               ltac:(vm_compute; intros [_ H]; apply H; reflexivity) eq_refl))).
    reflexivity.
Defined.

(** * Further properties of the code *)

(** ** Architecture names and ABI resolution *)

(** X1. Parsing the string of an architecture gives the architecture
    back for X86_32, X86_64, ARM and RISCV64, with nothing logged; the
    string of ARM64, "arm64", parses to ARM; the string of UNSUPPORTED
    parses to UNSUPPORTED with one line in the error log. *)
Theorem GetArchType_GetArchString (a : ArchType) :
  GetArchType (GetArchString a) =
    match a with
    | ARCH_ARM64 => Ret (ARCH_ARM, [])
    | ARCH_UNSUPPORTED => Ret (ARCH_UNSUPPORTED, ["unsupported arch: unknown"%string])
    | _ => Ret (a, [])
    end.
Proof. destruct a; reflexivity. Qed.



(** X3. Resolving the effective architecture twice with the same ABI tag
    changes nothing more; the result stays in the family of the host
    (x86, ARM, RISC-V) and is UNSUPPORTED only for an UNSUPPORTED host. *)
Theorem GetArchForAbi_idempotent (m : ArchType) (abi : Z) :
  GetArchForAbi (GetArchForAbi m abi) abi = GetArchForAbi m abi /\
  arch_family (GetArchForAbi m abi) = arch_family m /\
  (GetArchForAbi m abi = ARCH_UNSUPPORTED <-> m = ARCH_UNSUPPORTED).
Proof.
  unfold GetArchForAbi.
  destruct (Z.eqb_spec abi PERF_SAMPLE_REGS_ABI_32) as [-> | N32].
  - destruct m; cbn; (split; [reflexivity | split; [reflexivity |]]);
      split; intros H; (discriminate H || reflexivity).
  - destruct (Z.eqb_spec abi PERF_SAMPLE_REGS_ABI_64) as [-> | N64].
    + destruct m; cbn; (split; [reflexivity | split; [reflexivity |]]);
        split; intros H; (discriminate H || reflexivity).
    + destruct m; cbn; (split; [reflexivity | split; [reflexivity |]]);
        split; intros H; (discriminate H || reflexivity).
Qed.

(** X4. With the 32-bit tag the effective architecture is never X86_64
    or ARM64, with the 64-bit tag it is never X86_32 or ARM, and
    resolving with one tag and then the other gives what the second tag
    alone gives. *)
Theorem GetArchForAbi_width (m : ArchType) :
  GetArchForAbi m PERF_SAMPLE_REGS_ABI_32 <> ARCH_X86_64 /\
  GetArchForAbi m PERF_SAMPLE_REGS_ABI_32 <> ARCH_ARM64 /\
  GetArchForAbi m PERF_SAMPLE_REGS_ABI_64 <> ARCH_X86_32 /\
  GetArchForAbi m PERF_SAMPLE_REGS_ABI_64 <> ARCH_ARM /\
  GetArchForAbi (GetArchForAbi m PERF_SAMPLE_REGS_ABI_32) PERF_SAMPLE_REGS_ABI_64
    = GetArchForAbi m PERF_SAMPLE_REGS_ABI_64 /\
  GetArchForAbi (GetArchForAbi m PERF_SAMPLE_REGS_ABI_64) PERF_SAMPLE_REGS_ABI_32
    = GetArchForAbi m PERF_SAMPLE_REGS_ABI_32.
Proof.
  destruct m; cbn; repeat split; (discriminate || reflexivity).
Qed.

(** X5. The registers supported for the 32-bit effective architecture of
    a host are among those supported for the host, and the registers
    supported for a host are among those supported for its 64-bit
    effective architecture. *)
Theorem GetSupportedRegMask_abi_subset (m : ArchType) (i : Z) :
  (Z.testbit (GetSupportedRegMask (GetArchForAbi m PERF_SAMPLE_REGS_ABI_32)) i = true ->
   Z.testbit (GetSupportedRegMask m) i = true) /\
  (Z.testbit (GetSupportedRegMask m) i = true ->
   Z.testbit (GetSupportedRegMask (GetArchForAbi m PERF_SAMPLE_REGS_ABI_64)) i = true).
Proof.
  rewrite !testbit_GetSupportedRegMask.
  assert (forall lo hi, lo <= hi ->
            forall b, (0 <=? i) && (i <? lo) && b = true ->
                      (0 <=? i) && (i <? hi) && b = true) as Hwiden.
  { intros lo hi Hle b H.
    apply andb_prop in H. destruct H as [H Hb].
    apply andb_prop in H. destruct H as [H0 H1].
    apply Z.ltb_lt in H1.
    rewrite H0, Hb. replace (i <? hi) with true; [reflexivity |].
    symmetry. apply Z.ltb_lt. lia. }
  assert (PERF_REG_X86_32_MAX <= PERF_REG_X86_64_MAX) as Hx by (vm_compute; discriminate).
  assert (PERF_REG_ARM_MAX <= PERF_REG_ARM64_MAX) as Ha by (vm_compute; discriminate).
  destruct m; cbn [GetArchForAbi ArchType_eqb Z.eqb PERF_SAMPLE_REGS_ABI_32
                    PERF_SAMPLE_REGS_ABI_64 Pos.eqb supported_bit];
    split; try (intros H; exact H).
  - apply (Hwiden _ _ Hx).
  - apply (Hwiden _ _ Hx).
  - intros H. rewrite <- (andb_true_r (_ && (i <? PERF_REG_ARM64_MAX))).
    apply (Hwiden _ _ Ha). rewrite andb_true_r. exact H.
  - intros H. rewrite <- (andb_true_r (_ && (i <? PERF_REG_ARM_MAX))) in H.
    apply (Hwiden _ _ Ha) in H. rewrite andb_true_r in H. exact H.
Qed.

Lemma GetSupportedRegMask_abi_subset_witness :
  Z.testbit (GetSupportedRegMask ARCH_ARM64) 13 = true.
Proof.
  exact (proj1 (GetSupportedRegMask_abi_subset ARCH_ARM64 13) eq_refl).
Defined.

(** ** Printing and parsing decimal numbers *)

Section Decimal.

Local Open Scope string_scope.

Lemma digits_value_stop (acc : Z) (t : string) :
  starts_with_digit t = false -> digits_value acc t = acc.
Proof.
  destruct t as [| c t]; [reflexivity |]. cbn. intros ->. reflexivity.
Qed.

Lemma digits_value_uint (d : Decimal.uint) (acc : Z) (t : string) :
  starts_with_digit t = false ->
  digits_value acc (NilEmpty.string_of_uint d ++ t) = uint_value acc d.
Proof.
  intros Ht. revert acc.
  induction d as [| d IH | d IH | d IH | d IH | d IH | d IH | d IH | d IH | d IH | d IH];
    intros acc; cbn [NilEmpty.string_of_uint String.append uint_value];
    [apply digits_value_stop; exact Ht | ..];
    cbn [digits_value]; apply IH.
Qed.

Lemma uint_value_pos (d : Decimal.uint) (a : positive) :
  uint_value (Z.pos a) d = Z.pos (Pos.of_uint_acc d a).
Proof.
  revert a.
  induction d as [| d IH | d IH | d IH | d IH | d IH | d IH | d IH | d IH | d IH | d IH];
    intros a; cbn [uint_value Pos.of_uint_acc]; [reflexivity | ..];
    rewrite <- IH; f_equal; lia.
Qed.

Lemma uint_value_0 (d : Decimal.uint) : uint_value 0 d = Z.of_N (Pos.of_uint d).
Proof.
  induction d as [| d IH | d IH | d IH | d IH | d IH | d IH | d IH | d IH | d IH | d IH];
    cbn [uint_value Pos.of_uint Z.mul Z.add Z.of_N]; [reflexivity | exact IH | ..];
    apply uint_value_pos.
Qed.

Lemma uint_value_to_uint (p : positive) : uint_value 0 (Pos.to_uint p) = Z.pos p.
Proof. rewrite uint_value_0, DecimalPos.Unsigned.of_to. reflexivity. Qed.

Lemma to_uint_not_nil (p : positive) : Pos.to_uint p <> Decimal.Nil.
Proof.
  intros E. pose proof (DecimalPos.Unsigned.of_to p) as H.
  rewrite E in H. discriminate H.
Qed.

Lemma decimal_prefix_unsigned (d : Decimal.uint) (t : string) :
  d <> Decimal.Nil ->
  starts_with_digit t = false ->
  decimal_prefix (NilZero.string_of_uint d ++ t) = uint_value 0 d.
Proof.
  intros Hd Ht. rewrite <- (digits_value_uint d 0 t Ht).
  destruct d; [contradiction | reflexivity ..].
Qed.

Lemma nilzero_nilempty (d : Decimal.uint) :
  d <> Decimal.Nil -> NilZero.string_of_uint d = NilEmpty.string_of_uint d.
Proof. destruct d; [contradiction | reflexivity ..]. Qed.

(** Parsing what [%d] printed, whatever follows that is not a digit. *)
Lemma decimal_prefix_dec (n : Z) (t : string) :
  starts_with_digit t = false -> decimal_prefix (dec n ++ t) = n.
Proof.
  intros Ht. unfold dec. destruct n as [| p | p]; cbn [Z.to_int NilZero.string_of_int].
  - change (Decimal.Pos Decimal.zero) with (Decimal.Pos (Decimal.D0 Decimal.Nil)).
    rewrite decimal_prefix_unsigned by (discriminate || exact Ht). reflexivity.
  - rewrite decimal_prefix_unsigned by (apply to_uint_not_nil || exact Ht).
    apply uint_value_to_uint.
  - cbn [String.append]. unfold decimal_prefix. cbn [skip_space].
    change (isspace "-") with false. cbv iota.
    rewrite nilzero_nilempty by apply to_uint_not_nil.
    rewrite digits_value_uint by exact Ht.
    rewrite uint_value_to_uint. reflexivity.
Qed.

End Decimal.

(** X6. For every [int] [n] and every tail that does not begin with a
    digit, [atoi] reads [n] back from the text that [%d] prints for [n]
    followed by the tail; so "armv<n><tail>" is ARM64 when [n >= 8] and
    ARM otherwise, whatever the tail ("l", "-a", "hf", nothing). *)
Theorem GetArchType_armv_version (n : Z) (tail : string) :
  INT_MIN <= n <= INT_MAX ->
  starts_with_digit tail = false ->
  atoi (dec n ++ tail) = Ret n /\
  GetArchType ("armv" ++ dec n ++ tail) =
    Ret (if 8 <=? n then ARCH_ARM64 else ARCH_ARM, []).
Proof.
  intros Hn Ht.
  assert (atoi (dec n ++ tail) = Ret n) as Hatoi.
  { rewrite atoi_in_range; rewrite decimal_prefix_dec by exact Ht;
      [reflexivity | exact Hn]. }
  split; [exact Hatoi |].
  change ("armv" ++ dec n ++ tail)%string
    with ("arm" ++ String "v" (dec n ++ tail))%string.
  rewrite GetArchType_arm. cbn [char_at String.get String.append c_str_from].
  change (Ascii.eqb "v" "v") with true. cbv iota.
  rewrite Hatoi. cbn [obind]. destruct (8 <=? n); reflexivity.
Qed.

Lemma GetArchType_armv_version_witness :
  GetArchType "armv9-a" = Ret (ARCH_ARM64, []) /\
  GetArchType "armv-3" = Ret (ARCH_ARM, []).
Proof.
  split.
  - exact (proj2 (GetArchType_armv_version 9 "-a"
             ltac:(vm_compute; split; discriminate) eq_refl)).
  - exact (proj2 (GetArchType_armv_version (-3) ""
             ltac:(vm_compute; split; discriminate) eq_refl)).
Defined.

(** ** Register names beyond the supported masks *)

Section NameDomain.

Local Open Scope string_scope.

Lemma GetRegName_to_int (regno : Z) (a : ArchType) :
  GetRegName regno a = GetRegName (to_int regno) a.
Proof. unfold GetRegName. rewrite to_int_idem. reflexivity. Qed.

(** A key converted from an [int] outside 0..63 is outside 0..63. *)
Lemma to_size_t_outside (reg : Z) :
  - 2 ^ 31 <= reg < 2 ^ 31 -> ~ 0 <= reg < 64 -> ~ 0 <= to_size_t reg < 64.
Proof.
  intros Hr Hout. unfold to_size_t, two64.
  change (2 ^ 64)%Z with 18446744073709551616%Z. change (2 ^ 31)%Z with 2147483648%Z in *.
  pose proof (Z.div_mod reg 18446744073709551616 ltac:(lia)) as Hdm.
  pose proof (Z.mod_pos_bound reg 18446744073709551616 ltac:(lia)) as Hb.
  lia.
Qed.

Lemma find_outside (m : reg_map) (k : Z) :
  forallb (fun e : Z * string => (0 <=? fst e)%Z && (fst e <? 64)%Z) m = true ->
  ~ 0 <= k < 64 -> find m k = None.
Proof.
  intros Hkeys Hk. induction m as [| [key name] m IH]; [reflexivity |].
  cbn [forallb fst] in Hkeys. apply andb_prop in Hkeys. destruct Hkeys as [Hkey Hrest].
  apply andb_prop in Hkey. destruct Hkey as [H0 H1].
  apply Z.leb_le in H0. apply Z.ltb_lt in H1.
  cbn [find]. destruct (Z.eqb_spec key k); [lia | apply IH; exact Hrest].
Qed.

Lemma checked_find_outside (m : reg_map) (reg : Z) :
  forallb (fun e : Z * string => (0 <=? fst e)%Z && (fst e <? 64)%Z) m = true ->
  - 2 ^ 31 <= reg < 2 ^ 31 -> ~ 0 <= reg < 64 ->
  checked_find m reg = Fatal ("unknown reg " ++ dec reg).
Proof.
  intros Hkeys Hr Hout. unfold checked_find.
  rewrite (find_outside m _ Hkeys (to_size_t_outside reg Hr Hout)). reflexivity.
Qed.

(** Outside 0..63 no architecture with a name table has a name. *)
Lemma GetRegName_outside (reg : Z) (a : ArchType) :
  - 2 ^ 31 <= reg < 2 ^ 31 -> ~ 0 <= reg < 64 -> a <> ARCH_UNSUPPORTED ->
  named_index a reg = false /\
  GetRegName reg a = Fatal ("unknown reg " ++ dec reg).
Proof.
  intros Hr Hout Ha. unfold GetRegName. rewrite (to_int_small reg Hr).
  unfold GetRegName_x86_32, GetRegName_arm64.
  assert (find arm_reg_map (to_size_t reg) = None) as Harm
    by (apply find_outside; [reflexivity | apply to_size_t_outside; assumption]).
  destruct a; try (exfalso; apply Ha; reflexivity); cbn [named_index]; rewrite ?Harm;
    rewrite ?checked_find_outside by (reflexivity || assumption);
    cbv [PERF_REG_X86_AX PERF_REG_X86_GS PERF_REG_X86_R8 PERF_REG_X86_R15
         PERF_REG_ARM_R0 PERF_REG_ARM_R10 PERF_REG_ARM64_X0 PERF_REG_ARM64_X29
         PERF_REG_ARM64_PC PERF_REG_RISCV_PC PERF_REG_RISCV_T6];
    repeat match goal with
           | |- context [(?x <=? ?y)%Z] => destruct (Z.leb_spec x y)
           end;
    cbn [andb]; try (split; reflexivity); lia.
Qed.

(** Inside 0..63, checked index by index. *)
Lemma GetRegName_inside_checked (a : ArchType) :
  forallb (fun reg =>
             match GetRegName reg a with
             | Ret _ => named_index a reg
             | Fatal msg => negb (named_index a reg) && (msg =? "unknown reg " ++ dec reg)
             | Undefined => false
             end) (map Z.of_nat (seq 0 64)) = true.
Proof. destruct a; vm_compute; reflexivity. Qed.

Lemma GetRegName_domain (reg : Z) (a : ArchType) :
  - 2 ^ 31 <= reg < 2 ^ 31 ->
  if named_index a reg
  then exists name, GetRegName reg a = Ret name
  else GetRegName reg a = Fatal ("unknown reg " ++ dec reg).
Proof.
  intros Hr.
  destruct (Z_le_dec 0 reg) as [H0 | H0]; [destruct (Z_lt_dec reg 64) as [H1 | H1] |].
  - pose proof (forall_regno _ (GetRegName_inside_checked a) reg (conj H0 H1)) as H.
    cbv beta in H. destruct (GetRegName reg a) as [name | msg |]; [| | discriminate].
    + rewrite H. exists name. reflexivity.
    + apply andb_prop in H. destruct H as [Hn Hm].
      apply negb_true_iff in Hn. rewrite Hn.
      apply String.eqb_eq in Hm. rewrite Hm. reflexivity.
  - destruct a;
      try (match goal with
           | |- context [named_index ?a' reg] =>
               destruct (GetRegName_outside reg a' Hr ltac:(lia) ltac:(discriminate))
                 as [-> ->]
           end; reflexivity).
    cbn [named_index]. exists "unknown". reflexivity.
  - destruct a;
      try (match goal with
           | |- context [named_index ?a' reg] =>
               destruct (GetRegName_outside reg a' Hr ltac:(lia) ltac:(discriminate))
                 as [-> ->]
           end; reflexivity).
    cbn [named_index]. exists "unknown". reflexivity.
Qed.

(** Two indices of 0..63 with one name, checked pair by pair; on ARM
    the pairs with an index beyond the ARM registers are left out. *)
Lemma GetRegName_pairs_checked (a : ArchType) :
  forallb (fun x =>
    forallb (fun y =>
      match GetRegName x a, GetRegName y a with
      | Ret n1, Ret n2 =>
          negb (n1 =? n2) || (x =? y)%Z ||
          match a with
          | ARCH_ARM => negb ((x <? PERF_REG_ARM_MAX)%Z && (y <? PERF_REG_ARM_MAX)%Z)
          | ARCH_UNSUPPORTED => true
          | _ => false
          end
      | _, _ => true
      end) (map Z.of_nat (seq 0 64))) (map Z.of_nat (seq 0 64)) = true.
Proof. destruct a; vm_compute; reflexivity. Qed.

End NameDomain.

(** X7. [GetRegName] looks at the index as an [int]: it returns a name
    exactly when that [int] is one of the named indices of the
    architecture (0..GS on X86_32, 0..R15 on X86_64, 0..ARM64 PC on ARM
    and ARM64, 0..T6 on RISCV64, any on UNSUPPORTED), and aborts with
    "unknown reg <int>" in every other case, negative ones included. *)
Theorem GetRegName_named_or_fatal (regno : Z) (a : ArchType) :
  (named_index a (to_int regno) = true -> exists name, GetRegName regno a = Ret name) /\
  (named_index a (to_int regno) = false ->
     GetRegName regno a = Fatal ("unknown reg " ++ dec (to_int regno))%string).
Proof.
  rewrite GetRegName_to_int.
  pose proof (GetRegName_domain (to_int regno) a (to_int_range regno)) as H.
  destruct (named_index a (to_int regno)).
  - split; [intros _; exact H | discriminate].
  - split; [discriminate | intros _; exact H].
Qed.

Lemma GetRegName_named_or_fatal_witness :
  (exists name, GetRegName 13 ARCH_X86_64 = Ret name) /\
  GetRegName (2 ^ 64 - 1) ARCH_RISCV64 = Fatal "unknown reg -1".
Proof.
  split.
  - exact (proj1 (GetRegName_named_or_fatal 13 ARCH_X86_64) eq_refl).
  - exact (proj2 (GetRegName_named_or_fatal (2 ^ 64 - 1) ARCH_RISCV64) eq_refl).
Defined.

(** X8. Within one architecture a name stands for one register: two
    indices for which [GetRegName] returns the same name are the same
    [int], for X86_32, X86_64, ARM64 and RISCV64 over all indices, and
    for ARM over the indices below PERF_REG_ARM_MAX. *)
Theorem GetRegName_injective (a : ArchType) (i j : Z) (name : string) :
  a <> ARCH_UNSUPPORTED ->
  (a = ARCH_ARM -> to_int i < PERF_REG_ARM_MAX /\ to_int j < PERF_REG_ARM_MAX) ->
  GetRegName i a = Ret name ->
  GetRegName j a = Ret name ->
  to_int i = to_int j.
Proof.
  intros Ha Harm Hi Hj.
  rewrite GetRegName_to_int in Hi, Hj.
  assert (forall z, GetRegName (to_int z) a = Ret name -> 0 <= to_int z < 64) as Hin.
  { intros z Hz.
    destruct (Z_le_dec 0 (to_int z)) as [H0 | H0];
      [destruct (Z_lt_dec (to_int z) 64) as [H1 | H1]; [lia |] |];
      destruct (GetRegName_outside (to_int z) a (to_int_range z) ltac:(lia) Ha) as [_ E];
      rewrite E in Hz; discriminate Hz. }
  pose proof (Hin i Hi) as Ri. pose proof (Hin j Hj) as Rj.
  pose proof (forall_regno _ (GetRegName_pairs_checked a) (to_int i) Ri) as H.
  cbv beta in H.
  pose proof (forall_regno _ H (to_int j) Rj) as H'. cbv beta in H'.
  rewrite Hi, Hj, String.eqb_refl in H'. cbn [negb orb] in H'.
  destruct (Z.eqb_spec (to_int i) (to_int j)) as [E | _]; [exact E |].
  cbn [orb] in H'.
  destruct a; try discriminate H'; try (exfalso; apply Ha; reflexivity).
  destruct (Harm eq_refl) as [Li Lj].
  apply Z.ltb_lt in Li, Lj. rewrite Li, Lj in H'. discriminate H'.
Qed.

Lemma GetRegName_injective_witness : to_int (2 ^ 32 + 7) = to_int 7.
Proof.
  apply (GetRegName_injective ARCH_X86_64 (2 ^ 32 + 7) 7 "sp"%string).
  - discriminate.
  - discriminate.
  - reflexivity.
  - reflexivity.
Defined.

(** X9. Wherever [GetRegName] returns a name for X86_32 it returns the
    same name for X86_64, and outside the ARM indices FP..PC it gives for
    ARM what it gives for ARM64 (a name or the fatal error). *)
Theorem GetRegName_siblings (regno : Z) :
  (forall name, GetRegName regno ARCH_X86_32 = Ret name ->
                GetRegName regno ARCH_X86_64 = Ret name) /\
  (~ (PERF_REG_ARM_FP <= to_int regno <= PERF_REG_ARM_PC) ->
   GetRegName regno ARCH_ARM = GetRegName regno ARCH_ARM64).
Proof.
  rewrite !(GetRegName_to_int regno).
  pose proof (to_int_range regno) as Hr.
  set (reg := to_int regno) in *. clearbody reg.
  split.
  - intros name H.
    pose proof (GetRegName_domain reg ARCH_X86_32 Hr) as Hd.
    destruct (named_index ARCH_X86_32 reg) eqn:Hn;
      [| rewrite Hd in H; discriminate H].
    cbn [named_index] in Hn. apply andb_prop in Hn. destruct Hn as [H0 H1].
    apply Z.leb_le in H0, H1.
    unfold GetRegName in *. rewrite (to_int_small reg Hr) in *.
    unfold PERF_REG_X86_AX, PERF_REG_X86_GS in *.
    destruct (Z.leb_spec PERF_REG_X86_R8 reg) as [H8 | H8];
      [unfold PERF_REG_X86_R8 in H8; lia | exact H].
  - intros Hout. unfold GetRegName. rewrite (to_int_small reg Hr).
    unfold GetRegName_arm64.
    change PERF_REG_ARM_R0 with PERF_REG_ARM64_X0.
    destruct (Z.leb_spec PERF_REG_ARM64_X0 reg) as [H0 | H0];
      destruct (Z.leb_spec reg PERF_REG_ARM_R10) as [H10 | H10]; cbn [andb].
    + destruct (Z.leb_spec reg PERF_REG_ARM64_X29) as [_ | H29];
        [reflexivity | unfold PERF_REG_ARM_R10, PERF_REG_ARM64_X29 in *; lia].
    + assert (find arm_reg_map (to_size_t reg) = None) as ->; [| reflexivity].
      assert (to_size_t reg = reg) as ->.
      { unfold to_size_t, two64. apply Z.mod_small.
        unfold PERF_REG_ARM64_X0 in H0. lia. }
      unfold arm_reg_map. cbn [find].
      unfold PERF_REG_ARM_FP, PERF_REG_ARM_IP, PERF_REG_ARM_SP, PERF_REG_ARM_LR,
        PERF_REG_ARM_PC, PERF_REG_ARM_R10 in *.
      repeat match goal with
             | |- context [(?x =? reg)%Z] => destruct (Z.eqb_spec x reg); [lia |]
             end.
      reflexivity.
    + assert (find arm_reg_map (to_size_t reg) = None) as ->; [| reflexivity].
      apply find_outside; [reflexivity |].
      apply to_size_t_outside; [exact Hr |]. unfold PERF_REG_ARM64_X0 in H0. lia.
    + unfold PERF_REG_ARM_R10, PERF_REG_ARM64_X0 in *. lia.
Qed.

Lemma GetRegName_siblings_witness :
  GetRegName 9 ARCH_X86_64 = Ret "flags"%string /\
  GetRegName 31 ARCH_ARM = Ret "sp"%string.
Proof.
  split.
  - exact (proj1 (GetRegName_siblings 9) "flags"%string eq_refl).
  - rewrite (proj2 (GetRegName_siblings 31)
               ltac:(vm_compute; intros [_ H]; apply H; reflexivity)).
    reflexivity.
Defined.

(** X10. An index that differs from another by a multiple of [2^32] is
    the same [int] and gets the same answer, where [size_t] has 64
    bits: the index [2^32] is named like index 0 instead of being
    rejected. *)
Theorem GetRegName_wraps (regno k : Z) (a : ArchType) :
  GetRegName (regno + k * 2 ^ 32) a = GetRegName regno a.
Proof.
  unfold GetRegName.
  assert (to_int (regno + k * 2 ^ 32) = to_int regno) as ->; [| reflexivity].
  unfold to_int. rewrite Z_mod_plus_full. reflexivity.
Qed.

(** ** The packed array and the register set *)

Section PackedArray.

Variable m : Z.

(** The loop reads the packed array only below the number of set bits. *)
Lemma expand_from_agree (regs regs' : list Z) (n i : nat) (dense : list Z) :
  (i + n = 64)%nat ->
  (forall j : nat, (j < popcount64 m)%nat -> regs !! j = regs' !! j) ->
  expand_from n (Z.of_nat i) (rank m i) m regs dense
  = expand_from n (Z.of_nat i) (rank m i) m regs' dense.
Proof.
  intros Hin Hagree. revert i dense Hin.
  induction n as [| n IH]; intros i dense Hin; [reflexivity |].
  cbn [expand_from]. rewrite bit_set_testbit by lia.
  replace (Z.of_nat i + 1) with (Z.of_nat (S i)) by lia.
  destruct (Z.testbit m (Z.of_nat i)) eqn:Hbit.
  - rewrite <- (Hagree (rank m i)) by (apply rank_set_lt; [lia | exact Hbit]).
    destruct (regs !! rank m i) as [v |]; [| reflexivity].
    assert (rank m (S i) = S (rank m i)) as HS by (simpl; rewrite Hbit; lia).
    rewrite <- HS. apply IH. lia.
  - assert (rank m (S i) = rank m i) as HS by (simpl; rewrite Hbit; lia).
    rewrite <- HS. apply IH. lia.
Qed.

(** With fewer entries than set bits the loop reads past the array. *)
Lemma expand_from_short (regs : list Z) (n i : nat) (dense : list Z) :
  (i + n = 64)%nat ->
  (rank m i <= length regs < popcount64 m)%nat ->
  expand_from n (Z.of_nat i) (rank m i) m regs dense = Undefined.
Proof.
  revert i dense. induction n as [| n IH]; intros i dense Hin Hlen.
  - replace i with 64%nat in Hlen by lia. unfold popcount64 in Hlen. lia.
  - cbn [expand_from]. rewrite bit_set_testbit by lia.
    replace (Z.of_nat i + 1) with (Z.of_nat (S i)) by lia.
    destruct (Z.testbit m (Z.of_nat i)) eqn:Hbit.
    + assert (rank m (S i) = S (rank m i)) as HS by (simpl; rewrite Hbit; lia).
      destruct (regs !! rank m i) as [v |] eqn:Hv; [| reflexivity].
      apply lookup_lt_Some in Hv.
      rewrite <- HS. apply IH; lia.
    + assert (rank m (S i) = rank m i) as HS by (simpl; rewrite Hbit; lia).
      rewrite <- HS. apply IH; lia.
Qed.

Lemma expand_ok_ge (regs : list Z) :
  (popcount64 m <= length regs)%nat ->
  exists d,
    expand m regs = Ret d /\
    length d = 64%nat /\
    forall k : nat, (k < 64)%nat ->
      d !! k = if Z.testbit m (Z.of_nat k) then regs !! rank m k else Some 0.
Proof.
  intros Hlen.
  assert (expand m regs = expand m (take (popcount64 m) regs)) as E.
  { unfold expand. apply (expand_from_agree regs (take (popcount64 m) regs) 64 0);
      [reflexivity |].
    intros j Hj. symmetry. apply lookup_take_lt. exact Hj. }
  destruct (expand_ok m (take (popcount64 m) regs)) as (d & Hd & Hdl & Hdk).
  { apply length_take_le. exact Hlen. }
  exists d. rewrite E. split; [exact Hd | split; [exact Hdl |]].
  intros k Hk. rewrite (Hdk k Hk).
  destruct (Z.testbit m (Z.of_nat k)) eqn:Hbit; [| reflexivity].
  apply lookup_take_lt. apply rank_set_lt; [exact Hk | exact Hbit].
Qed.

Lemma RegSet_new_ok_ge (cur : ArchType) (abi : Z) (regs : list Z) :
  (popcount64 m <= length regs)%nat ->
  exists d,
    length d = 64%nat /\
    (forall k : nat, (k < 64)%nat ->
       d !! k = if Z.testbit m (Z.of_nat k) then regs !! rank m k else Some 0) /\
    RegSet_new cur abi m regs =
      Ret (mkRegSet (GetArchForAbi cur abi) m (map_arm64_pc cur abi d)).
Proof.
  intros Hlen. destruct (expand_ok_ge regs Hlen) as (d & Hd & Hdl & Hdk).
  exists d. split; [exact Hdl | split; [exact Hdk |]].
  unfold RegSet_new. rewrite Hd. reflexivity.
Qed.

Lemma RegSet_new_short (cur : ArchType) (abi : Z) (regs : list Z) :
  (length regs < popcount64 m)%nat -> RegSet_new cur abi m regs = Undefined.
Proof.
  intros Hlen. unfold RegSet_new, expand.
  rewrite (expand_from_short regs 64 0) by (reflexivity || (simpl; lia)).
  reflexivity.
Qed.

(** What a returned register set is made of. *)
Lemma RegSet_new_Ret (cur : ArchType) (abi : Z) (regs : list Z) (rs : RegSet) :
  RegSet_new cur abi m regs = Ret rs ->
  (popcount64 m <= length regs)%nat /\
  exists d,
    length d = 64%nat /\
    (forall k : nat, (k < 64)%nat ->
       d !! k = if Z.testbit m (Z.of_nat k) then regs !! rank m k else Some 0) /\
    rs = mkRegSet (GetArchForAbi cur abi) m (map_arm64_pc cur abi d).
Proof.
  intros Hrs.
  destruct (le_lt_dec (popcount64 m) (length regs)) as [Hle | Hlt].
  - split; [exact Hle |].
    destruct (RegSet_new_ok_ge cur abi regs Hle) as (d & Hdl & Hdk & Hnew).
    exists d. split; [exact Hdl | split; [exact Hdk |]]. congruence.
  - rewrite RegSet_new_short in Hrs by exact Hlt. discriminate Hrs.
Qed.

End PackedArray.

Lemma length_map_arm64_pc (cur : ArchType) (abi : Z) (d : list Z) :
  length (map_arm64_pc cur abi d) = length d.
Proof.
  unfold map_arm64_pc.
  destruct (ArchType_eqb cur ARCH_ARM64 && (abi =? PERF_SAMPLE_REGS_ABI_32));
    [apply length_insert | reflexivity].
Qed.

(** X11. The constructor returns a register set exactly when the packed
    array has at least as many entries as the mask has set bits; with
    fewer entries it reads past the end of the array. *)
Theorem RegSet_new_defined (cur : ArchType) (abi m : Z) (regs : list Z) :
  ((popcount64 m <= length regs)%nat -> exists rs, RegSet_new cur abi m regs = Ret rs) /\
  ((length regs < popcount64 m)%nat -> RegSet_new cur abi m regs = Undefined).
Proof.
  split.
  - intros Hlen. destruct (RegSet_new_ok_ge m cur abi regs Hlen) as (d & _ & _ & Hnew).
    eexists. exact Hnew.
  - apply RegSet_new_short.
Qed.

Lemma RegSet_new_defined_witness :
  (exists rs, RegSet_new ARCH_X86_64 2 7 [1; 2; 3; 4] = Ret rs) /\
  RegSet_new ARCH_X86_64 2 7 [1; 2] = Undefined.
Proof.
  split.
  - apply (proj1 (RegSet_new_defined ARCH_X86_64 2 7 [1; 2; 3; 4])). vm_compute. lia.
  - apply (proj2 (RegSet_new_defined ARCH_X86_64 2 7 [1; 2])). vm_compute. lia.
Defined.

(** X12. The constructor reads only as many packed entries as the mask
    has set bits: entries after them do not change the register set. *)
Theorem RegSet_new_extra_ignored (cur : ArchType) (abi m : Z) (regs extra : list Z) :
  (popcount64 m <= length regs)%nat ->
  RegSet_new cur abi m (regs ++ extra) = RegSet_new cur abi m regs.
Proof.
  intros Hlen. unfold RegSet_new, expand.
  rewrite (expand_from_agree m (regs ++ extra) regs 64 0); [reflexivity | reflexivity |].
  intros j Hj. apply lookup_app_l. lia.
Qed.

Lemma RegSet_new_extra_ignored_witness :
  RegSet_new ARCH_ARM 1 5 ([8; 9] ++ [77; 78]) = RegSet_new ARCH_ARM 1 5 [8; 9].
Proof.
  apply RegSet_new_extra_ignored. vm_compute. lia.
Defined.

(** X13. A register set that the constructor returns has the effective
    architecture of the host and tag, the mask it was given and 64 slots;
    every slot holds zero or an entry of the packed array, and a slot
    whose bit is not set holds zero (the ARM program-counter slot apart
    on an ARM64 host with a 32-bit sample). *)
Theorem RegSet_new_invariant (cur : ArchType) (abi m : Z) (regs : list Z) (rs : RegSet) :
  RegSet_new cur abi m regs = Ret rs ->
  arch rs = GetArchForAbi cur abi /\
  valid_mask rs = m /\
  length (data rs) = 64%nat /\
  Forall (fun v => v = 0 \/ v ∈ regs) (data rs) /\
  (forall i : nat, (i < 64)%nat -> Z.testbit m (Z.of_nat i) = false ->
     i <> Z.to_nat PERF_REG_ARM_PC \/ cur <> ARCH_ARM64 \/ abi <> PERF_SAMPLE_REGS_ABI_32 ->
     data rs !! i = Some 0).
Proof.
  intros Hrs. destruct (RegSet_new_Ret m cur abi regs rs Hrs) as (_ & d & Hdl & Hdk & ->).
  cbn [arch valid_mask data].
  split; [reflexivity |]. split; [reflexivity |].
  split; [rewrite length_map_arm64_pc; exact Hdl |].
  assert (Forall (fun v => v = 0 \/ v ∈ regs) d) as Hall.
  { apply Forall_lookup_2. intros i x Hx.
    pose proof (lookup_lt_Some _ _ _ Hx) as Hi. rewrite Hdl in Hi.
    rewrite (Hdk i Hi) in Hx.
    destruct (Z.testbit m (Z.of_nat i)).
    - right. eapply list_elem_of_lookup_2. exact Hx.
    - left. congruence. }
  split.
  - unfold map_arm64_pc.
    destruct (ArchType_eqb cur ARCH_ARM64 && (abi =? PERF_SAMPLE_REGS_ABI_32));
      [| exact Hall].
    apply Forall_insert; [exact Hall |].
    assert (d !! Z.to_nat PERF_REG_ARM64_PC = Some (d !!! Z.to_nat PERF_REG_ARM64_PC)) as Hpc
      by (apply list_lookup_lookup_total_lt; rewrite Hdl; vm_compute; lia).
    exact (Forall_lookup_1 _ _ _ _ Hall Hpc).
  - intros i Hi Hbit [Hne | Hoff].
    + rewrite map_arm64_pc_other by exact Hne. rewrite (Hdk i Hi), Hbit. reflexivity.
    + rewrite map_arm64_pc_inactive by exact Hoff. rewrite (Hdk i Hi), Hbit. reflexivity.
Qed.

Lemma RegSet_new_invariant_witness :
  exists rs, RegSet_new ARCH_ARM64 1 5 [8; 9] = Ret rs /\ length (data rs) = 64%nat.
Proof.
  eexists. split; [reflexivity |].
  exact (proj1 (proj2 (proj2 (RegSet_new_invariant ARCH_ARM64 1 5 [8; 9] _ eq_refl)))).
Defined.

(** ** Reading a register set back *)

Section ReadBack.

Variable rs : RegSet.
Variable m : Z.
Variable regs : list Z.

Hypothesis mask_is : valid_mask rs = m.
Hypothesis regs_enough : (popcount64 m <= length regs)%nat.
Hypothesis slots :
  forall k : nat, (k < 64)%nat -> Z.testbit m (Z.of_nat k) = true ->
    data rs !! k = regs !! rank m k.

Lemma sampled_prefix (n : nat) :
  (n <= 64)%nat ->
  omap (fun i : nat =>
          match GetRegValue rs (Z.of_nat i) 0 with
          | Ret (true, v) => Some v
          | _ => None
          end) (seq 0 n)
  = take (rank m n) regs.
Proof.
  induction n as [| n IH]; intros Hn; [reflexivity |].
  rewrite seq_S, omap_app, IH by lia. cbn [Nat.add omap list_omap].
  rewrite GetRegValue_bit by lia. rewrite Nat2Z.id, mask_is. cbn [rank].
  destruct (Z.testbit m (Z.of_nat n)) eqn:Hbit.
  - assert (rank m n < length regs)%nat as Hlt.
    { pose proof (rank_set_lt m n 64 ltac:(lia) Hbit).
      unfold popcount64 in regs_enough. lia. }
    destruct (lookup_lt_is_Some_2 regs _ Hlt) as [x Hx].
    assert (data rs !!! n = x) as ->.
    { apply list_lookup_total_correct. rewrite slots by (lia || exact Hbit). exact Hx. }
    replace (rank m n + 1)%nat with (S (rank m n)) by lia.
    rewrite (take_S_r _ _ _ Hx). reflexivity.
  - rewrite Nat.add_0_r, app_nil_r. reflexivity.
Qed.

Lemma sampled_values_take : sampled_values rs = take (popcount64 m) regs.
Proof. unfold sampled_values, popcount64. apply sampled_prefix. lia. Qed.

End ReadBack.

(** X14. Asking a constructed register set for the indices 0..63 in
    increasing order gives back, as the successful answers, the packed
    entries the constructor read, in their order: the whole packed array
    when it has one entry per set bit.  This holds unless the host is ARM64,
    the sample 32-bit and the ARM program-counter bit set, where that
    slot was overwritten. *)
Theorem RegSet_new_round_trip (cur : ArchType) (abi m : Z) (regs : list Z) (rs : RegSet) :
  RegSet_new cur abi m regs = Ret rs ->
  cur <> ARCH_ARM64 \/ abi <> PERF_SAMPLE_REGS_ABI_32 \/
    Z.testbit m PERF_REG_ARM_PC = false ->
  sampled_values rs = take (popcount64 m) regs /\
  (length regs = popcount64 m -> sampled_values rs = regs).
Proof.
  intros Hrs Hfree.
  destruct (RegSet_new_Ret m cur abi regs rs Hrs) as (Hlen & d & Hdl & Hdk & ->).
  assert (sampled_values (mkRegSet (GetArchForAbi cur abi) m (map_arm64_pc cur abi d))
          = take (popcount64 m) regs) as E.
  { apply (sampled_values_take
             (mkRegSet (GetArchForAbi cur abi) m (map_arm64_pc cur abi d)) m regs
             eq_refl Hlen).
    cbn [data].
    intros k Hk Hbit.
    destruct (Nat.eq_dec k (Z.to_nat PERF_REG_ARM_PC)) as [-> | Hne].
    - rewrite map_arm64_pc_inactive.
      + rewrite (Hdk _ Hk), Hbit. reflexivity.
      + destruct Hfree as [H | [H | H]]; [left; exact H | right; exact H |].
        change (Z.of_nat (Z.to_nat PERF_REG_ARM_PC)) with PERF_REG_ARM_PC in Hbit.
        congruence.
    - rewrite map_arm64_pc_other by exact Hne. rewrite (Hdk _ Hk), Hbit. reflexivity. }
  split; [exact E |].
  intros Heq. rewrite E. apply take_ge. lia.
Qed.

Lemma RegSet_new_round_trip_witness :
  exists rs,
    RegSet_new ARCH_ARM64 1 mask_2_5_9 [70; 80; 90] = Ret rs /\
    sampled_values rs = [70; 80; 90].
Proof.
  eexists. split; [reflexivity |].
  apply (proj2 (RegSet_new_round_trip ARCH_ARM64 1 mask_2_5_9 [70; 80; 90] _ eq_refl
                  (or_intror (or_intror eq_refl)))).
  reflexivity.
Defined.

(** X15. The host architecture and the ABI tag matter for the slots only
    at the ARM program-counter index: two register sets built from the
    same mask and packed array under any hosts and tags have the same
    mask and give the same answer to [GetRegValue] at every other
    index. *)
Theorem RegSet_new_host_independent (cur cur' : ArchType) (abi abi' m : Z)
    (regs : list Z) (rs rs' : RegSet) :
  RegSet_new cur abi m regs = Ret rs ->
  RegSet_new cur' abi' m regs = Ret rs' ->
  valid_mask rs = valid_mask rs' /\
  (forall regno value, regno <> PERF_REG_ARM_PC ->
     GetRegValue rs regno value = GetRegValue rs' regno value).
Proof.
  intros Hrs Hrs'.
  destruct (RegSet_new_Ret m cur abi regs rs Hrs) as (_ & d & Hdl & Hdk & ->).
  destruct (RegSet_new_Ret m cur' abi' regs rs' Hrs') as (_ & d' & Hdl' & Hdk' & ->).
  split; [reflexivity |].
  intros regno value Hne. unfold GetRegValue. cbn [valid_mask data].
  destruct (regno <? 64); [| reflexivity].
  destruct (bit_set m regno); [| reflexivity].
  do 2 f_equal. rewrite !list_lookup_total_alt.
  assert (d = d') as <-.
  { apply list_eq. intros k.
    destruct (Nat.lt_ge_cases k 64) as [Hk | Hk].
    - rewrite (Hdk k Hk), (Hdk' k Hk). reflexivity.
    - rewrite !lookup_ge_None_2 by lia. reflexivity. }
  destruct (Nat.eq_dec (Z.to_nat regno) (Z.to_nat PERF_REG_ARM_PC)) as [E | N].
  - exfalso. apply Hne. unfold PERF_REG_ARM_PC in *. lia.
  - rewrite !map_arm64_pc_other by exact N. reflexivity.
Qed.

Lemma RegSet_new_host_independent_witness :
  exists rs rs',
    RegSet_new ARCH_ARM64 1 5 [8; 9] = Ret rs /\
    RegSet_new ARCH_X86_64 2 5 [8; 9] = Ret rs' /\
    GetRegValue rs 2 0 = GetRegValue rs' 2 0.
Proof.
  do 2 eexists. split; [reflexivity |]. split; [reflexivity |].
  apply (proj2 (RegSet_new_host_independent ARCH_ARM64 ARCH_X86_64 1 2 5 [8; 9] _ _
                  eq_refl eq_refl)).
  discriminate.
Defined.

(** ** Stack pointer and program counter of a constructed set *)

Lemma GetSpRegValue_bit (rs : RegSet) (value : Z) :
  GetSpRegValue rs value =
    match sp_regno (arch rs) with
    | Some r =>
        if Z.testbit (valid_mask rs) r
        then Ret (true, data rs !!! Z.to_nat r) else Ret (false, value)
    | None => Ret (false, value)
    end.
Proof.
  rewrite GetSpRegValue_dispatch. destruct (sp_regno (arch rs)) as [r |] eqn:E;
    [| reflexivity].
  apply GetRegValue_bit. eapply sp_regno_range. exact E.
Qed.

Lemma GetIpRegValue_bit (rs : RegSet) (value : Z) :
  GetIpRegValue rs value =
    match ip_regno (arch rs) with
    | Some r =>
        if Z.testbit (valid_mask rs) r
        then Ret (true, data rs !!! Z.to_nat r) else Ret (false, value)
    | None => Ret (false, value)
    end.
Proof.
  rewrite GetIpRegValue_dispatch. destruct (ip_regno (arch rs)) as [r |] eqn:E;
    [| reflexivity].
  apply GetRegValue_bit. eapply ip_regno_range. exact E.
Qed.

(** X16. On an ARM64 host with a 32-bit sample, [GetIpRegValue] on the
    constructed set returns true exactly when the ARM program-counter bit
    of the mask is set, and the value it gives is then the packed entry
    of the ARM64 program-counter bit, or zero when that bit is not set:
    the entry packed for the ARM program-counter bit itself is never
    returned. *)
Theorem RegSet_new_arm64_abi32_ip (m : Z) (regs : list Z) (rs : RegSet) (value : Z) :
  RegSet_new ARCH_ARM64 PERF_SAMPLE_REGS_ABI_32 m regs = Ret rs ->
  GetIpRegValue rs value =
    if Z.testbit m PERF_REG_ARM_PC
    then Ret (true, if Z.testbit m PERF_REG_ARM64_PC
                    then regs !!! rank m (Z.to_nat PERF_REG_ARM64_PC)
                    else 0)
    else Ret (false, value).
Proof.
  intros Hrs.
  destruct (RegSet_new_Ret m _ _ regs rs Hrs) as (Hlen & d & Hdl & Hdk & ->).
  rewrite GetIpRegValue_bit. cbn [arch valid_mask data].
  change (ip_regno (GetArchForAbi ARCH_ARM64 PERF_SAMPLE_REGS_ABI_32))
    with (Some PERF_REG_ARM_PC). cbv iota.
  destruct (Z.testbit m PERF_REG_ARM_PC); [| reflexivity].
  do 2 f_equal.
  apply list_lookup_total_correct.
  rewrite map_arm64_pc_copy by exact Hdl.
  rewrite Hdk by (vm_compute; lia).
  change (Z.of_nat (Z.to_nat PERF_REG_ARM64_PC)) with PERF_REG_ARM64_PC.
  destruct (Z.testbit m PERF_REG_ARM64_PC) eqn:Hbit; [| reflexivity].
  apply list_lookup_lookup_total_lt.
  pose proof (rank_set_lt m (Z.to_nat PERF_REG_ARM64_PC) 64) as Hlt.
  unfold popcount64 in Hlen.
  assert (rank m (Z.to_nat PERF_REG_ARM64_PC) < rank m 64)%nat; [| lia].
  apply Hlt; [vm_compute; lia | exact Hbit].
Qed.

Lemma RegSet_new_arm64_abi32_ip_witness :
  exists rs,
    RegSet_new ARCH_ARM64 1 (2 ^ 15 + 2 ^ 32) [70; 80] = Ret rs /\
    GetIpRegValue rs 99 = Ret (true, 80).
Proof.
  eexists. split; [reflexivity |].
  exact (RegSet_new_arm64_abi32_ip (2 ^ 15 + 2 ^ 32) [70; 80] _ 99 eq_refl).
Defined.

(** X17. A sample taken with the whole supported mask of a supported
    host answers both [GetSpRegValue] and [GetIpRegValue] with true,
    whatever the ABI tag, except on an ARM host with the 64-bit tag,
    where the ARM64 stack-pointer and program-counter indices lie
    outside the ARM mask and both return false. *)
Theorem RegSet_new_full_mask_sp_ip (cur : ArchType) (abi : Z) (regs : list Z) (value : Z) :
  cur <> ARCH_UNSUPPORTED ->
  (popcount64 (GetSupportedRegMask cur) <= length regs)%nat ->
  exists rs,
    RegSet_new cur abi (GetSupportedRegMask cur) regs = Ret rs /\
    if ArchType_eqb cur ARCH_ARM && (abi =? PERF_SAMPLE_REGS_ABI_64)
    then GetSpRegValue rs value = Ret (false, value) /\
         GetIpRegValue rs value = Ret (false, value)
    else exists sp ip,
         GetSpRegValue rs value = Ret (true, sp) /\
         GetIpRegValue rs value = Ret (true, ip).
Proof.
  intros Hcur Hlen.
  destruct (RegSet_new_ok_ge (GetSupportedRegMask cur) cur abi regs Hlen)
    as (d & _ & _ & Hnew).
  eexists. split; [exact Hnew |].
  rewrite GetSpRegValue_bit, GetIpRegValue_bit. cbn [arch valid_mask data].
  assert (abi = PERF_SAMPLE_REGS_ABI_32 \/ abi = PERF_SAMPLE_REGS_ABI_64 \/
          (GetArchForAbi cur abi = cur /\ (abi =? PERF_SAMPLE_REGS_ABI_64) = false))
    as [-> | [-> | [-> ->]]].
  { unfold GetArchForAbi.
    destruct (Z.eqb_spec abi PERF_SAMPLE_REGS_ABI_32); [left; assumption |].
    destruct (Z.eqb_spec abi PERF_SAMPLE_REGS_ABI_64); [right; left; assumption |].
    right. right. split; reflexivity. }
  - destruct cur; try (exfalso; apply Hcur; reflexivity);
      cbn [GetArchForAbi ArchType_eqb Z.eqb Pos.eqb PERF_SAMPLE_REGS_ABI_32
           PERF_SAMPLE_REGS_ABI_64 sp_regno ip_regno andb];
      rewrite !testbit_GetSupportedRegMask;
      do 2 eexists; split; reflexivity.
  - destruct cur; try (exfalso; apply Hcur; reflexivity);
      cbn [GetArchForAbi ArchType_eqb Z.eqb Pos.eqb PERF_SAMPLE_REGS_ABI_32
           PERF_SAMPLE_REGS_ABI_64 sp_regno ip_regno andb];
      rewrite !testbit_GetSupportedRegMask;
      try (do 2 eexists); split; reflexivity.
  - rewrite andb_false_r.
    destruct cur; try (exfalso; apply Hcur; reflexivity);
      cbn [sp_regno ip_regno];
      rewrite !testbit_GetSupportedRegMask;
      do 2 eexists; split; reflexivity.
Qed.

Lemma RegSet_new_full_mask_sp_ip_witness :
  exists rs,
    RegSet_new ARCH_ARM 2 (GetSupportedRegMask ARCH_ARM) (seqZ 100 16) = Ret rs /\
    GetSpRegValue rs 7 = Ret (false, 7) /\ GetIpRegValue rs 7 = Ret (false, 7).
Proof.
  destruct (RegSet_new_full_mask_sp_ip ARCH_ARM 2 (seqZ 100 16) 7) as (rs & Hnew & H).
  - discriminate.
  - vm_compute. lia.
  - exists rs. split; [exact Hnew | exact H].
Defined.
